(** * ecszap: ECS field encoders for zap (encoder.go)

    A shallow embedding of [encoder.go] of package [ecszap] and the
    properties of its time and caller encoders.

    Go strings are byte strings: they are modelled by [string] (a list of
    8-bit [ascii] characters).  Go's [int] and [int64] are modelled by [Z],
    with the wrap-around written out where the code can reach it.  A run-time
    panic is an explicit outcome, [Panic]. *)

From Stdlib Require Import ZArith QArith Qabs Qpower List String Ascii Bool Lia Lqa.
From Stdlib Require Import Floats.SpecFloat.
Import ListNotations.

Local Open Scope string_scope.
Local Open Scope Z_scope.

(** ** Go run-time values *)

(** The outcome of a Go call: it returns, or it panics. *)
Inductive result (A : Type) : Type :=
| Ok (a : A)
| Panic (msg : string).
Arguments Ok {A} a.
Arguments Panic {A} msg.

Definition bind {A B : Type} (r : result A) (k : A -> result B) : result B :=
  match r with
  | Ok a => k a
  | Panic msg => Panic msg
  end.

Notation "x <- r ;; k" := (bind r (fun x => k))
  (at level 61, r at next level, right associativity).

(** Go's [error] interface: [nil], or an error carrying a message. *)
Definition error : Type := option string.
Definition nil_error : error := None.

(** [len(s)] *)
Definition len (s : string) : Z := Z.of_nat (String.length s).

(** The slice expression [s[:hi]]: the run time panics unless
    [0 <= hi <= len(s)]. *)
Definition slice_to (s : string) (hi : Z) : result string :=
  if (hi <? 0) || (len s <? hi)
  then Panic "slice bounds out of range"
  else Ok (substring 0 (Z.to_nat hi) s).

(** Package [strings]. *)
Module strings.

(** [LastIndex_from s substr i found] scans [s], whose first byte has index
    [i], and keeps in [found] the last index at which [substr] starts. *)
Fixpoint LastIndex_from (s substr : string) (i found : Z) : Z :=
  let found' := if prefix substr s then i else found in
  match s with
  | EmptyString => found'
  | String _ s' => LastIndex_from s' substr (i + 1) found'
  end.

(** [strings.LastIndex(s, substr)]: the index of the last instance of
    [substr] in [s], or -1 if [substr] is not present in [s]. *)
Definition LastIndex (s substr : string) : Z :=
  LastIndex_from s substr 0 (-1).

End strings.

(** [has_byte c s]: the byte [c] occurs in [s]. *)
Fixpoint has_byte (c : ascii) (s : string) : bool :=
  match s with
  | EmptyString => false
  | String a s' => Ascii.eqb a c || has_byte c s'
  end.

(** ** The host's values: zapcore.EntryCaller *)

(** [zapcore.EntryCaller].  [TrimmedPath] is the result of the host's method
    [TrimmedPath()] on this value; the package does not compute it.  zapcore
    returns [package/file:line] for a defined caller and the word
    [undefined] for a caller whose [Defined] is false. *)
Record EntryCaller : Type := {
  Defined : bool;
  File : string;
  Line : Z;
  Function : string;
  TrimmedPath : string
}.

(** ** The host's interfaces: zapcore.ObjectEncoder *)

(** The methods of [zapcore.ObjectEncoder] that the package calls, over the
    encoder's state [E]. *)
Class ObjectEncoder (E : Type) : Type := {
  AddString : string -> string -> E -> E;
  AddInt : string -> Z -> E -> E
}.

(** [zapcore.ObjectMarshaler]: a value with a method
    [MarshalLogObject(ObjectEncoder) error], usable with every encoder. *)
Definition ObjectMarshaler : Type :=
  forall E : Type, ObjectEncoder E -> E -> result (E * error).

(** One field of an encoded object. *)
Inductive Field : Type :=
| StringField (key val : string)
| IntField (key : string) (val : Z).

(** The object encoder that records the fields in insertion order. *)
#[export] Instance fieldRecorder : ObjectEncoder (list Field) := {
  AddString k v fs := (fs ++ [StringField k v])%list;
  AddInt k v fs := (fs ++ [IntField k v])%list
}.

(** ** Caller encoding *)

(** [type caller struct { zapcore.EntryCaller; fullPath bool }] *)
Record caller : Type := {
  entry :> EntryCaller;
  fullPath : bool
}.

(** [func (c *caller) MarshalLogObject(enc zapcore.ObjectEncoder) error] *)
Definition MarshalLogObject (c : caller) : ObjectMarshaler :=
  fun E _ enc =>
    file <- (if fullPath c then Ok (File c)
             else
               let file := TrimmedPath c in
               slice_to file (strings.LastIndex file ":")) ;;
    let enc := AddString "function" (Function c) enc in
    let enc := AddString "file.name" file enc in
    let enc := AddInt "file.line" (Line c) enc in
    Ok (enc, nil_error).

(** ** Go's package time *)

Module time.

Local Open Scope list_scope.

(** [time.Location]: what the encoders observe of a location is the offset,
    in seconds east of UTC, in use at an instant (given in Unix seconds). *)
Record Location : Type := { zoneOffset : Z -> Z }.

(** [time.UTC] *)
Definition UTC : Location := {| zoneOffset := fun _ => 0 |}.

(** [time.Time]: an instant, as seconds and nanoseconds since the Unix
    epoch, and the location it is presented in. *)
Record Time : Type := {
  unixSec : Z;
  nsec : Z;
  loc : Location
}.

(** The invariant of every [time.Time]: the nanoseconds are within the
    second. *)
Definition valid (t : Time) : Prop := 0 <= nsec t < 1000000000.

(** The offset of [t]'s location at [t]. *)
Definition offset (t : Time) : Z := zoneOffset (loc t) (unixSec t).

(** [t.In(loc)]: the same instant, presented in [loc]. *)
Definition In (t : Time) (l : Location) : Time :=
  {| unixSec := unixSec t; nsec := nsec t; loc := l |}.

(** Two's-complement wrap-around of [int64] arithmetic. *)
Definition wrap64 (x : Z) : Z :=
  (x + 9223372036854775808) mod 18446744073709551616 - 9223372036854775808.

(** [t.UnixNano()]: nanoseconds since the Unix epoch, computed in
    [int64]. *)
Definition UnixNano (t : Time) : Z :=
  wrap64 (unixSec t * 1000000000 + nsec t).

(** [time.Microsecond], a [Duration] counted in nanoseconds. *)
Definition Microsecond : Z := 1000.

(** *** Formatting *)

(** The ASCII digit of [d], for [0 <= d < 10]. *)
Definition digit (d : Z) : ascii := ascii_of_nat (48 + Z.to_nat d).

(** The decimal digits of [u >= 0], most significant first. *)
Fixpoint utod (fuel : nat) (u : Z) : list ascii :=
  match fuel with
  | O => []
  | S f => (if u <? 10 then [] else utod f (u / 10)) ++ [digit (u mod 10)]
  end.

(** [appendInt(b, x, width)]: [x] in decimal, zero-padded to [width]. *)
Definition appendInt (b : list ascii) (x : Z) (width : nat) : list ascii :=
  let b := if x <? 0 then b ++ ["-"%char] else b in
  let ds := utod 20 (Z.abs x) in
  b ++ repeat "0"%char (width - List.length ds) ++ ds.

(** The elements of a layout.  Only the elements that occur in the layout
    of this package are distinguished. *)
Inductive std : Type :=
| stdLongYear                  (* 2006 *)
| stdZeroMonth                 (* 01 *)
| stdZeroDay                   (* 02 *)
| stdHour                      (* 15 *)
| stdZeroMinute                (* 04 *)
| stdZeroSecond                (* 05 *)
| stdFracSecond0 (n : nat)     (* .000: a fraction of n digits *)
| stdISO8601ColonTZ            (* Z07:00 *)
| literal (c : ascii).

Definition isDigit (c : ascii) : bool :=
  (48 <=? nat_of_ascii c)%nat && (nat_of_ascii c <=? 57)%nat.

(** The number of bytes ['0'] at the head of [s]. *)
Fixpoint zeros (s : string) : nat :=
  match s with
  | String "0"%char s' => S (zeros s')
  | _ => O
  end.

(** [.000]: a dot, then [n >= 1] zeros, then no further digit. *)
Definition fraction (rest : string) : option nat :=
  let n := zeros rest in
  match n, String.get n rest with
  | O, _ => None
  | _, Some c => if isDigit c then None else Some n
  | _, None => Some n
  end.

(** The layout split into its elements ([nextStdChunk], iterated);
    [skip] counts the bytes of the element just recognised that are still
    to be passed over. *)
Fixpoint chunks (skip : nat) (layout : string) : list std :=
  match layout with
  | EmptyString => []
  | String c rest =>
      match skip with
      | S k => chunks k rest
      | O =>
          if prefix "2006" layout then stdLongYear :: chunks 3 rest
          else if prefix "01" layout then stdZeroMonth :: chunks 1 rest
          else if prefix "02" layout then stdZeroDay :: chunks 1 rest
          else if prefix "15" layout then stdHour :: chunks 1 rest
          else if prefix "04" layout then stdZeroMinute :: chunks 1 rest
          else if prefix "05" layout then stdZeroSecond :: chunks 1 rest
          else if prefix "Z07:00" layout
               then stdISO8601ColonTZ :: chunks 5 rest
          else match (if Ascii.eqb c "." then fraction rest else None) with
               | Some n => stdFracSecond0 n :: chunks n rest
               | None => literal c :: chunks 0 rest
               end
      end
  end.

(** Year of the era, month and day of the [doe]-th day of an era of 400
    years that starts on a first of March. *)
Definition era_day (doe : Z) : Z * Z * Z :=
  let yoe := (doe - doe / 1460 + doe / 36524 - doe / 146096) / 365 in
  let doy := doe - (365 * yoe + yoe / 4 - yoe / 100) in
  let mp := (5 * doy + 2) / 153 in
  let d := doy - (153 * mp + 2) / 5 + 1 in
  let m := if mp <? 10 then mp + 3 else mp - 9 in
  (if m <=? 2 then yoe + 1 else yoe, m, d).

(** The civil date of a day counted from 1970-01-01, in the proleptic
    Gregorian calendar: (year, month, day). *)
Definition civil (days : Z) : Z * Z * Z :=
  let z := days + 719468 in
  let '(y, m, d) := era_day (z mod 146097) in
  (y + 400 * (z / 146097), m, d).

(** Seconds since the epoch on the clock of [t]'s location. *)
Definition abs (t : Time) : Z := unixSec t + offset t.

Definition Year (t : Time) : Z := fst (fst (civil (abs t / 86400))).
Definition Month (t : Time) : Z := snd (fst (civil (abs t / 86400))).
Definition Day (t : Time) : Z := snd (civil (abs t / 86400)).
Definition Hour (t : Time) : Z := (abs t mod 86400) / 3600.
Definition Minute (t : Time) : Z := (abs t mod 3600) / 60.
Definition Second (t : Time) : Z := abs t mod 60.

(** [appendNano]: a dot and the first [n] of the nine digits of the
    nanoseconds. *)
Definition appendNano (b : list ascii) (nanosec : Z) (n : nat) : list ascii :=
  let b := appendInt (b ++ ["."%char]) nanosec 9 in
  firstn (List.length b - 9 + n) b.

(** The zone of [Z07:00]: [Z] for offset zero, else sign, hours and
    minutes.  The divisions truncate towards zero, as Go's do. *)
Definition appendZone (b : list ascii) (offset : Z) : list ascii :=
  if offset =? 0 then b ++ ["Z"%char]
  else
    let zone := Z.quot offset 60 in
    let b := if zone <? 0 then b ++ ["-"%char] else b ++ ["+"%char] in
    let zone := if zone <? 0 then - zone else zone in
    let b := appendInt b (Z.quot zone 60) 2 in
    let b := b ++ [":"%char] in
    appendInt b (Z.rem zone 60) 2.

Definition appendStd (b : list ascii) (t : Time) (s : std) : list ascii :=
  match s with
  | stdLongYear => appendInt b (Year t) 4
  | stdZeroMonth => appendInt b (Month t) 2
  | stdZeroDay => appendInt b (Day t) 2
  | stdHour => appendInt b (Hour t) 2
  | stdZeroMinute => appendInt b (Minute t) 2
  | stdZeroSecond => appendInt b (Second t) 2
  | stdFracSecond0 n => appendNano b (nsec t) n
  | stdISO8601ColonTZ => appendZone b (offset t)
  | literal c => b ++ [c]
  end.

(** [t.AppendFormat(b, layout)] *)
Definition AppendFormat (t : Time) (b : list ascii) (layout : string)
  : list ascii :=
  fold_left (fun b s => appendStd b t s) (chunks 0 layout) b.

(** Modelled from the spec: [t.Format(layout)] belongs to Go's standard
    library, which is not part of this repository.  The model renders the
    layout elements year, month, day, hour, minute, second, fixed fraction
    and ISO 8601 zone, which are the ones of the layout used here; every
    other byte of a layout is copied. *)
Definition Format (t : Time) (layout : string) : string :=
  string_of_list_ascii (AppendFormat t [] layout).

End time.

(** ** Go's float64 *)

Module float64.

(** IEEE 754 binary64, as specified by [SpecFloat] with a precision of 53
    bits and an exponent bound of 1024; rounding is to nearest, ties to
    even. *)
Definition t : Type := spec_float.

(** The conversion [float64(x)] of an integer. *)
Definition of_int (x : Z) : t := binary_normalize 53 1024 x 0 false.

(** The quotient [x / y] of two float64 values. *)
Definition div (x y : t) : t := SFdiv 53 1024 x y.

(** The rational number that a finite float64 stands for. *)
Definition to_Q (x : t) : option Q :=
  match x with
  | S754_zero _ => Some 0%Q
  | S754_finite s m e =>
      Some ((if s then - inject_Z (Zpos m) else inject_Z (Zpos m)) * (2 # 1) ^ e)%Q
  | _ => None
  end.

(** [nearest q x]: [x] is a float64 that no float64 beats in distance to
    the rational [q]: it is [q] rounded once, to nearest. *)
Definition nearest (q : Q) (x : t) : Prop :=
  valid_binary 53 1024 x = true /\
  exists qx, to_Q x = Some qx /\
  forall (y : t) (qy : Q),
    valid_binary 53 1024 y = true -> to_Q y = Some qy ->
    (Qabs (qx - q) <= Qabs (qy - q))%Q.

End float64.

(** ** The host's interfaces: zapcore.PrimitiveArrayEncoder *)

(** The method set that the type assertion [enc.(appendTimeEncoder)] of
    [RFC3339TimeEncoder] looks for. *)
Record appendTimeEncoder (S : Type) : Type := {
  AppendTimeLayout : time.Time -> string -> S -> S
}.
Arguments AppendTimeLayout {S} _ _ _ _.

(** What [zapcore.ArrayEncoder] adds to the primitive encoder, as far as the
    package uses it.  [AppendObject] runs the marshaler it is given, so it
    panics when the marshaler does. *)
Record ArrayEncoder (S : Type) : Type := {
  AppendObject : ObjectMarshaler -> S -> result (S * error)
}.
Arguments AppendObject {S} _ _ _.

(** A sink: the methods of [zapcore.PrimitiveArrayEncoder] that the package
    calls, over the sink's state [S], and the outcome of the two type
    assertions that the package makes on the sink's dynamic type. *)
Class PrimitiveArrayEncoder (S : Type) : Type := {
  AppendFloat64 : float64.t -> S -> S;
  AppendString : string -> S -> S;
  as_ArrayEncoder : option (ArrayEncoder S);
  as_appendTimeEncoder : option (appendTimeEncoder S)
}.

(** The same sink seen through an interface value of a type without the
    method [AppendTimeLayout]. *)
Definition without_AppendTimeLayout {S : Type} (enc : PrimitiveArrayEncoder S)
  : PrimitiveArrayEncoder S := {|
  AppendFloat64 := @AppendFloat64 S enc;
  AppendString := @AppendString S enc;
  as_ArrayEncoder := @as_ArrayEncoder S enc;
  as_appendTimeEncoder := None
|}.

(** The contract of the optional method, for one layout:
    [AppendTimeLayout(t, layout)] leaves the sink as appending the string
    [t.Format(layout)] does.  This is what the package expects of a sink
    that supports [AppendTimeLayout], which it uses instead of appending a
    pre-formatted string value. *)
Definition formats_with_layout {S : Type} (enc : PrimitiveArrayEncoder S)
  (layout : string) : Prop :=
  forall e, @as_appendTimeEncoder S enc = Some e ->
  forall t s,
    AppendTimeLayout e t layout s = @AppendString S enc (time.Format t layout) s.

(** ** The encoders of the package *)

(** [func EpochMicrosTimeEncoder(t time.Time, enc zapcore.PrimitiveArrayEncoder)] *)
Definition EpochMicrosTimeEncoder {S : Type} {enc : PrimitiveArrayEncoder S}
  (t : time.Time) (s : S) : S :=
  let micros :=
    float64.div (float64.of_int (time.UnixNano t))
                (float64.of_int time.Microsecond) in
  AppendFloat64 micros s.

(** [func encodeCaller(c *caller, enc zapcore.PrimitiveArrayEncoder)]; the
    error that [AppendObject] returns is dropped. *)
Definition encodeCaller {S : Type} {enc : PrimitiveArrayEncoder S}
  (c : caller) (s : S) : result S :=
  match as_ArrayEncoder with
  | Some e =>
      r <- AppendObject e (MarshalLogObject c) s ;;
      Ok (fst r)
  | None => Ok s
  end.

(** [type CallerEncoder func(zapcore.EntryCaller, zapcore.PrimitiveArrayEncoder)] *)
Definition CallerEncoder : Type :=
  forall S : Type, PrimitiveArrayEncoder S -> EntryCaller -> S -> result S.

(** [func FullCallerEncoder(c zapcore.EntryCaller, enc zapcore.PrimitiveArrayEncoder)] *)
Definition FullCallerEncoder : CallerEncoder :=
  fun S enc c s => encodeCaller {| entry := c; fullPath := true |} s.

(** [func ShortCallerEncoder(c zapcore.EntryCaller, enc zapcore.PrimitiveArrayEncoder)] *)
Definition ShortCallerEncoder : CallerEncoder :=
  fun S enc c s => encodeCaller {| entry := c; fullPath := false |} s.

(** [const rfc3339millis] of [RFC3339TimeEncoder] *)
Definition rfc3339millis : string := "2006-01-02T15:04:05.000Z07:00".

(** [func RFC3339TimeEncoder(t time.Time, enc zapcore.PrimitiveArrayEncoder)] *)
Definition RFC3339TimeEncoder {S : Type} {enc : PrimitiveArrayEncoder S}
  (t : time.Time) (s : S) : S :=
  match as_appendTimeEncoder with
  | Some e => AppendTimeLayout e t rfc3339millis s
  | None => AppendString (time.Format t rfc3339millis) s
  end.

(** [func RFC3339UTCTimeEncoder(t time.Time, enc zapcore.PrimitiveArrayEncoder)] *)
Definition RFC3339UTCTimeEncoder {S : Type} {enc : PrimitiveArrayEncoder S}
  (t : time.Time) (s : S) : S :=
  RFC3339TimeEncoder (time.In t time.UTC) s.

(** [func (e *CallerEncoder) UnmarshalText(text []byte) error]: the new value
    of [*e] and the error returned. *)
Definition UnmarshalText (e : CallerEncoder) (text : string)
  : CallerEncoder * error :=
  let e :=
    if String.eqb text "full" then FullCallerEncoder
    else ShortCallerEncoder in
  (e, nil_error).

(** ** A sink in memory *)

(** What the sink in memory holds for each appended element. *)
Inductive Value : Type :=
| StringValue (s : string)
| Float64Value (f : float64.t)
| ObjectValue (fields : list Field).

(** A sink that keeps the appended elements in order.  [arr] and [tl] tell
    whether its dynamic type has the methods of [zapcore.ArrayEncoder] and
    the method [AppendTimeLayout]. *)
Definition memEncoder (arr tl : bool) : PrimitiveArrayEncoder (list Value) := {|
  AppendFloat64 f vs := (vs ++ [Float64Value f])%list;
  AppendString s vs := (vs ++ [StringValue s])%list;
  as_ArrayEncoder :=
    if arr then
      Some {| AppendObject m vs :=
                r <- m (list Field) fieldRecorder [] ;;
                Ok ((vs ++ [ObjectValue (fst r)])%list, snd r) |}
    else None;
  as_appendTimeEncoder :=
    if tl then
      Some {| AppendTimeLayout t layout vs :=
                (vs ++ [StringValue (time.Format t layout)])%list |}
    else None
|}.

(** ** A sink that writes JSON text *)

(** A sink in the manner of zap's JSON encoder: the state is the text written
    so far; a string is quoted and escaped; a time with a layout is quoted
    and written as formatted, without escaping; an object is written between
    braces by the marshaler, with the same text as its object encoder. *)
Module json.

Definition quote : ascii := ascii_of_nat 34.
Definition backslash : ascii := ascii_of_nat 92.

(** The bytes that are written as they are. *)
Definition safe (b : ascii) : bool :=
  (32 <=? nat_of_ascii b)%nat && (nat_of_ascii b <? 128)%nat &&
  negb (Ascii.eqb b quote) && negb (Ascii.eqb b backslash).

Definition hex (n : nat) : ascii :=
  if (n <? 10)%nat then ascii_of_nat (48 + n) else ascii_of_nat (87 + n).

(** The text written for one byte of a string; bytes from 128 on belong to
    multi-byte characters and are copied. *)
Definition escape (b : ascii) : string :=
  let n := nat_of_ascii b in
  if safe b || (128 <=? n)%nat then String b ""
  else if Ascii.eqb b quote || Ascii.eqb b backslash
       then String backslash (String b "")
  else if (n =? 10)%nat then String backslash "n"
  else if (n =? 13)%nat then String backslash "r"
  else if (n =? 9)%nat then String backslash "t"
  else String backslash
         ("u00" ++ String (hex (n / 16)) (String (hex (n mod 16)) "")).

(** [safeAddString]: the escaped text of a string. *)
Fixpoint escaped (s : string) : string :=
  match s with
  | EmptyString => ""
  | String b s' => escape b ++ escaped s'
  end.

Fixpoint last_byte (s : string) : option ascii :=
  match s with
  | EmptyString => None
  | String b EmptyString => Some b
  | String _ s' => last_byte s'
  end.

(** [addElementSeparator]: a comma, unless the text is empty or ends in an
    opening brace or bracket, a colon, a comma or a space. *)
Definition addElementSeparator (buf : string) : string :=
  match last_byte buf with
  | None => buf
  | Some c =>
      if Ascii.eqb c "{" || Ascii.eqb c "[" || Ascii.eqb c ":" ||
         Ascii.eqb c "," || Ascii.eqb c " "
      then buf
      else buf ++ ","
  end.

Definition quoted (text : string) : string :=
  String quote (text ++ String quote "").

Definition appendString (val : string) (buf : string) : string :=
  addElementSeparator buf ++ quoted (escaped val).

Definition appendTimeLayout (t : time.Time) (layout : string) (buf : string)
  : string :=
  addElementSeparator buf ++ quoted (time.Format t layout).

(** A signed integer in decimal. *)
Definition itoa (v : Z) : string :=
  string_of_list_ascii (time.appendInt [] v 0).

Definition addKey (key : string) (buf : string) : string :=
  addElementSeparator buf ++ quoted (escaped key) ++ ":".

#[export] Instance objectEncoder : ObjectEncoder string := {
  AddString key val buf := appendString val (addKey key buf);
  AddInt key val buf := addElementSeparator (addKey key buf) ++ itoa val
}.

(** The sink; [formatFloat] is the host's rendering of a float64. *)
Definition encoder (formatFloat : float64.t -> string)
  : PrimitiveArrayEncoder string := {|
  AppendFloat64 f buf := addElementSeparator buf ++ formatFloat f;
  AppendString := appendString;
  as_ArrayEncoder :=
    Some {| AppendObject m buf :=
              r <- m string objectEncoder (addElementSeparator buf ++ "{") ;;
              Ok (fst r ++ "}", snd r) |};
  as_appendTimeEncoder := Some {| AppendTimeLayout := appendTimeLayout |}
|}.

End json.

(** ** Vocabulary of the properties *)

(** The caller values that the two exported encoders build. *)
Definition full (c : EntryCaller) : caller := {| entry := c; fullPath := true |}.
Definition short (c : EntryCaller) : caller := {| entry := c; fullPath := false |}.

(** [emits c name]: on every object encoder, [MarshalLogObject] of [c] makes
    exactly the three calls [AddString("function", c.Function)],
    [AddString("file.name", name)] and [AddInt("file.line", c.Line)], in this
    order, and returns a nil error. *)
Definition emits (c : caller) (name : string) : Prop :=
  forall (E : Type) (oe : ObjectEncoder E) (enc : E),
    MarshalLogObject c E oe enc =
    Ok (AddInt "file.line" (Line c)
          (AddString "file.name" name
             (AddString "function" (Function c) enc)),
        nil_error).

(** The three fields of an encoded caller, in their order. *)
Definition caller_fields (function name : string) (line : Z) : list Field :=
  [StringField "function" function;
   StringField "file.name" name;
   IntField "file.line" line].

(** [emits_three_fields c]: the caller [c] is encoded as three fields
    [function], [file.name], [file.line], and with the full path as
    [file.name] when [c] asks for it. *)
Definition emits_three_fields (c : caller) : Prop :=
  exists name, emits c name /\ (fullPath c = true -> name = File c).

Definition field_key (f : Field) : string :=
  match f with
  | StringField k _ => k
  | IntField k _ => k
  end.

(** Two field lists that are equal field by field, except possibly where
    both have a field [file.name]. *)
Definition differ_only_in_file_name (ff fs : list Field) : Prop :=
  Forall2 (fun f g => f = g \/
                      (field_key f = "file.name" /\ field_key g = "file.name"))
          ff fs.

(** [same_but_file_name c]: the full and the short encoding of [c] both
    yield an object, and the two objects differ at most in [file.name]. *)
Definition same_but_file_name (c : EntryCaller) : Prop :=
  exists ff fs,
    MarshalLogObject (full c) (list Field) fieldRecorder [] = Ok (ff, nil_error) /\
    MarshalLogObject (short c) (list Field) fieldRecorder [] = Ok (fs, nil_error) /\
    differ_only_in_file_name ff fs.

(** The [k] low-order decimal digits of [v], most significant first. *)
Fixpoint fixed (k : nat) (v : Z) : list ascii :=
  match k with
  | O => []
  | S k' => (fixed k' (v / 10) ++ [time.digit (v mod 10)])%list
  end.

(** [decimal k v]: the number [v], [0 <= v < 10^k], written with exactly [k]
    decimal digits. *)
Definition decimal (k : nat) (v : Z) : string :=
  string_of_list_ascii (fixed k v).

(** Every byte of [s] is a decimal digit. *)
Definition is_digits (s : string) : bool :=
  forallb time.isDigit (list_ascii_of_string s).



(** [fixed_format t year zone]: the text [YYYY-MM-DDTHH:mm:ss.sss] of [t]
    followed by its zone, with [year] for the year and [zone] for the zone;
    the fraction is the count of whole milliseconds, in three digits. *)
Definition fixed_format (t : time.Time) (year zone : string) : string :=
  year ++ "-" ++ decimal 2 (time.Month t) ++ "-" ++ decimal 2 (time.Day t) ++
  "T" ++ decimal 2 (time.Hour t) ++ ":" ++ decimal 2 (time.Minute t) ++ ":" ++
  decimal 2 (time.Second t) ++ "." ++ decimal 3 (time.nsec t / 1000000) ++ zone.

(** [finite_with_sign sign x]: [x] is a float64 zero or a finite float64,
    neither a NaN nor an infinity, and its sign bit is [sign]. *)
Definition finite_with_sign (sign : bool) (x : float64.t) : Prop :=
  match x with
  | S754_zero s => s = sign
  | S754_finite s _ _ => s = sign
  | _ => False
  end.

(** [describes l g]: the location [l] that a rounding step of [SpecFloat]
    carries stands for the fraction [g] of a unit in the last place that the
    mantissa leaves out: none, less than half, half, or more than half. *)
Definition describes (l : location) (g : Q) : Prop :=
  match l with
  | loc_Exact => (g == 0)%Q
  | loc_Inexact Lt => (0 < g /\ g < 1 # 2)%Q
  | loc_Inexact Eq => (g == 1 # 2)%Q
  | loc_Inexact Gt => (1 # 2 < g /\ g < 1)%Q
  end.

(** The bytes of a time in the fixed format: digits, the separators of date
    and clock, the letters [T] and [Z] and the signs. *)
Definition in_time_alphabet (c : ascii) : bool :=
  time.isDigit c || Ascii.eqb c "-" || Ascii.eqb c ":" || Ascii.eqb c "." ||
  Ascii.eqb c "T" || Ascii.eqb c "Z" || Ascii.eqb c "+".








(** A sink in memory whose [AppendTimeLayout] disregards the layout it is
    given and writes the time to the second. *)
Definition secondsEncoder : PrimitiveArrayEncoder (list Value) := {|
  AppendFloat64 f vs := (vs ++ [Float64Value f])%list;
  AppendString s vs := (vs ++ [StringValue s])%list;
  as_ArrayEncoder := None;
  as_appendTimeEncoder :=
    Some {| AppendTimeLayout t layout vs :=
              (vs ++ [StringValue
                        (time.Format t "2006-01-02T15:04:05Z07:00")])%list |}
|}.

(** ** Values used in examples *)


(** 2300-01-01T00:00:00Z: the nanoseconds since the epoch,
    10413792000000000000, do not fit in an [int64]. *)
Definition year_2300 : time.Time := {|
  time.unixSec := 10413792000;
  time.nsec := 0;
  time.loc := time.UTC
|}.

(** A caller whose file has a single separator, after a drive letter:
    zapcore's [TrimmedPath()] keeps such a file whole, so that the trimmed
    path has a colon of its own before the line. *)
Definition drive_caller : EntryCaller := {|
  Defined := true;
  File := "C:/main.go";
  Line := 7;
  Function := "main.Run";
  TrimmedPath := "C:/main.go:7"
|}.

(** A caller in another tree whose last directory, file and line are those of
    [main_caller]: zapcore's [TrimmedPath()] is the same for both. *)
Definition other_tree_caller : EntryCaller := {|
  Defined := true;
  File := "/other/app/main.go";
  Line := 42;
  Function := "main.Run";
  TrimmedPath := "app/main.go:42"
|}.

(** The file, function and line of [main_caller] in a caller that is not
    [Defined], for which zapcore's [TrimmedPath()] answers [undefined]. *)
Definition unmarked_caller : EntryCaller := {|
  Defined := false;
  File := "/src/app/main.go";
  Line := 42;
  Function := "main.Run";
  TrimmedPath := "undefined"
|}.

(** A location on UTC until the end of March 2021 and an hour ahead after. *)
Definition london : time.Location :=
  {| time.zoneOffset := fun sec => if sec <? 1616893200 then 0 else 3600 |}.

(** 2021-01-01T00:00:00.5 in [london]. *)
Definition new_year : time.Time := {|
  time.unixSec := 1609459200;
  time.nsec := 500000000;
  time.loc := london
|}.

(** The caller of the documentation's example. *)
Definition main_caller : EntryCaller := {|
  Defined := true;
  File := "/src/app/main.go";
  Line := 42;
  Function := "main.Run";
  TrimmedPath := "app/main.go:42"
|}.

(** The zero value [zapcore.EntryCaller{}]: not [Defined], and zapcore's
    [TrimmedPath()] answers the word [undefined] for it. *)
Definition undefined_caller : EntryCaller := {|
  Defined := false;
  File := "";
  Line := 0;
  Function := "";
  TrimmedPath := "undefined"
|}.

(** 2021-05-01T10:00:00.123456Z *)
Definition may_day : time.Time := {|
  time.unixSec := 1619863200;
  time.nsec := 123456000;
  time.loc := time.UTC
|}.

(** 2021-05-01T10:00:00.123472Z, sixteen microseconds later. *)
Definition may_day_16us : time.Time := {|
  time.unixSec := 1619863200;
  time.nsec := 123472000;
  time.loc := time.UTC
|}.

(** A location five and a half hours east of UTC. *)
Definition kolkata : time.Location := {| time.zoneOffset := fun _ => 19800 |}.

(** * Properties *)

(** ** Searching and slicing strings *)

Section LastColon.

Lemma len_nonneg (s : string) : 0 <= len s.
Proof. unfold len. lia. Qed.

Lemma len_String (a : ascii) (s : string) : len (String a s) = 1 + len s.
Proof. unfold len. simpl String.length. lia. Qed.

Lemma prefix_colon (a : ascii) (s : string) :
  prefix ":" (String a s) = Ascii.eqb a ":".
Proof.
  cbn [prefix]. destruct (ascii_dec ":" a) as [<- | Hne].
  - destruct s; reflexivity.
  - symmetry. apply Ascii.eqb_neq. congruence.
Qed.

(** Without a colon the scan keeps what it had found before. *)
Lemma LastIndex_from_absent (s : string) :
  has_byte ":" s = false ->
  forall i found, strings.LastIndex_from s ":" i found = found.
Proof.
  induction s as [| a s IH]; intros Hno i found.
  - reflexivity.
  - cbn [has_byte] in Hno. apply orb_false_iff in Hno as [Ha Hs].
    cbn [strings.LastIndex_from]. rewrite prefix_colon, Ha. now apply IH.
Qed.

(** The scan stops on the colon that no other colon follows. *)
Lemma LastIndex_from_last (pre suf : string) :
  has_byte ":" suf = false ->
  forall i found,
    strings.LastIndex_from (pre ++ String ":" suf) ":" i found = i + len pre.
Proof.
  intros Hno. induction pre as [| a pre IH]; intros i found.
  - cbn [append strings.LastIndex_from]. rewrite prefix_colon.
    cbn [Ascii.eqb Bool.eqb]. rewrite (LastIndex_from_absent suf Hno).
    unfold len. simpl. lia.
  - cbn [append strings.LastIndex_from]. rewrite IH, len_String. lia.
Qed.

Lemma LastIndex_absent (s : string) :
  has_byte ":" s = false -> strings.LastIndex s ":" = -1.
Proof. intros H. apply (LastIndex_from_absent s H). Qed.

Lemma LastIndex_last (pre suf : string) :
  has_byte ":" suf = false ->
  strings.LastIndex (pre ++ String ":" suf) ":" = len pre.
Proof.
  intros H. unfold strings.LastIndex. now rewrite LastIndex_from_last.
Qed.

(** A string with a colon splits at its last colon. *)
Lemma split_last_colon (s : string) :
  has_byte ":" s = true ->
  exists pre suf, s = pre ++ String ":" suf /\ has_byte ":" suf = false.
Proof.
  induction s as [| a s IH]; intros H.
  - discriminate.
  - destruct (has_byte ":" s) eqn:Hs.
    + destruct (IH eq_refl) as (pre & suf & -> & Hsuf).
      now exists (String a pre), suf.
    + cbn [has_byte] in H. rewrite Hs, orb_false_r in H.
      apply Ascii.eqb_eq in H as ->. now exists "", s.
Qed.

(** The split at the last colon is unique. *)
Lemma split_last_colon_unique (pre pre' suf suf' : string) :
  has_byte ":" suf = false -> has_byte ":" suf' = false ->
  pre ++ String ":" suf = pre' ++ String ":" suf' ->
  pre = pre' /\ suf = suf'.
Proof.
  revert pre'. induction pre as [| a pre IH]; intros [| a' pre'] Hs Hs' E;
    cbn [append] in E.
  - now injection E as ->.
  - injection E as <- ->. clear -Hs.
    exfalso. induction pre' as [| b p IHp]; cbn in Hs; [discriminate |].
    apply orb_false_iff in Hs as [_ Hs]. auto.
  - injection E as -> <-. clear -Hs'.
    exfalso. induction pre as [| b p IHp]; cbn in Hs'; [discriminate |].
    apply orb_false_iff in Hs' as [_ Hs']. auto.
  - injection E as <- E. destruct (IH pre' Hs Hs' E) as [-> ->]. now split.
Qed.

Lemma substring_prefix (pre rest : string) :
  substring 0 (String.length pre) (pre ++ rest) = pre.
Proof.
  induction pre as [| a pre IH]; cbn.
  - now destruct rest.
  - now rewrite IH.
Qed.

Lemma len_append (s1 s2 : string) : len (s1 ++ s2) = len s1 + len s2.
Proof.
  unfold len. induction s1 as [| a s1 IH]; cbn [append String.length]; lia.
Qed.

Lemma slice_to_prefix (pre rest : string) :
  slice_to (pre ++ rest) (len pre) = Ok pre.
Proof.
  unfold slice_to. rewrite len_append.
  pose proof (len_nonneg pre). pose proof (len_nonneg rest).
  replace (len pre <? 0) with false by (symmetry; apply Z.ltb_ge; lia).
  replace (len pre + len rest <? len pre) with false
    by (symmetry; apply Z.ltb_ge; lia).
  cbn [orb]. unfold len. now rewrite Nat2Z.id, substring_prefix.
Qed.

Lemma slice_to_negative (s : string) (hi : Z) :
  hi < 0 -> slice_to s hi = Panic "slice bounds out of range".
Proof.
  intros H. unfold slice_to.
  now replace (hi <? 0) with true by (symmetry; apply Z.ltb_lt; lia).
Qed.

End LastColon.

(** ** What MarshalLogObject emits *)

Lemma emits_full (c : EntryCaller) : emits (full c) (File c).
Proof. intros E oe enc. reflexivity. Qed.

Lemma emits_short (c : EntryCaller) (pre suf : string) :
  TrimmedPath c = pre ++ String ":" suf ->
  has_byte ":" suf = false ->
  emits (short c) pre.
Proof.
  intros Hsplit Hsuf E oe enc. unfold MarshalLogObject.
  cbn [fullPath short entry]. rewrite Hsplit, (LastIndex_last pre suf Hsuf).
  now rewrite slice_to_prefix.
Qed.

Lemma short_panics (c : EntryCaller) :
  has_byte ":" (TrimmedPath c) = false ->
  forall (E : Type) (oe : ObjectEncoder E) (enc : E),
    MarshalLogObject (short c) E oe enc = Panic "slice bounds out of range".
Proof.
  intros Hno E oe enc. unfold MarshalLogObject.
  cbn [fullPath short entry]. rewrite (LastIndex_absent _ Hno).
  now rewrite slice_to_negative by lia.
Qed.

(** With the recording encoder, [emits] reads as the list of fields. *)
Lemma emits_fields (c : caller) (name : string) :
  emits c name ->
  forall fs : list Field,
    MarshalLogObject c (list Field) fieldRecorder fs =
    Ok ((fs ++ [StringField "function" (Function c);
                StringField "file.name" name;
                IntField "file.line" (Line c)])%list, nil_error).
Proof.
  intros H fs. rewrite (H _ fieldRecorder fs). cbn [AddString AddInt fieldRecorder].
  now rewrite <- !app_assoc.
Qed.

Lemma emits_fields_nil (c : caller) (name : string) :
  emits c name ->
  MarshalLogObject c (list Field) fieldRecorder [] =
  Ok (caller_fields (Function c) name (Line c), nil_error).
Proof. intros H. now rewrite (emits_fields c name H []). Qed.

(** Through the sink in memory: one object, with the three fields. *)
Lemma encodeCaller_memEncoder (c : caller) (name : string) (tl : bool) :
  emits c name ->
  forall vs : list Value,
    @encodeCaller _ (memEncoder true tl) c vs =
    Ok (vs ++ [ObjectValue (caller_fields (Function c) name (Line c))])%list.
Proof.
  intros H vs. unfold encodeCaller. cbn [as_ArrayEncoder memEncoder AppendObject].
  now rewrite (emits_fields_nil c name H).
Qed.

Lemma encodeCaller_memEncoder_panics (c : caller) (tl : bool) (msg : string) :
  MarshalLogObject c (list Field) fieldRecorder [] = Panic msg ->
  forall vs : list Value, @encodeCaller _ (memEncoder true tl) c vs = Panic msg.
Proof.
  intros H vs. unfold encodeCaller. cbn [as_ArrayEncoder memEncoder AppendObject].
  now rewrite H.
Qed.

(** ** Caller encoders *)

(** C1. A caller whose trimmed path has no colon, such as zapcore's
    undefined caller, is not encoded by the short variant with its trimmed
    path unchanged: the slice expression panics, while the full variant
    encodes the same caller. *)
Theorem C1_short_encoder_panics_without_colon :
  has_byte ":" (TrimmedPath undefined_caller) = false /\
  strings.LastIndex (TrimmedPath undefined_caller) ":" = -1 /\
  MarshalLogObject (short undefined_caller) (list Field) fieldRecorder [] =
    Panic "slice bounds out of range" /\
  ShortCallerEncoder (list Value) (memEncoder true false) undefined_caller [] =
    Panic "slice bounds out of range" /\
  FullCallerEncoder (list Value) (memEncoder true false) undefined_caller [] =
    Ok [ObjectValue (caller_fields "" "" 0)].
Proof. repeat split; reflexivity. Qed.

(** C2. When the trimmed path contains a colon, the short variant does not
    fail and its [file.name] is the trimmed path without its last colon and
    what follows it. *)
Theorem C2_short_strips_last_colon (c : EntryCaller) :
  has_byte ":" (TrimmedPath c) = true ->
  exists pre suf,
    TrimmedPath c = pre ++ String ":" suf /\
    has_byte ":" suf = false /\
    emits (short c) pre /\
    forall (tl : bool) (vs : list Value),
      ShortCallerEncoder (list Value) (memEncoder true tl) c vs =
      Ok (vs ++ [ObjectValue (caller_fields (Function c) pre (Line c))])%list.
Proof.
  intros H. destruct (split_last_colon _ H) as (pre & suf & Hsplit & Hsuf).
  exists pre, suf. pose proof (emits_short c pre suf Hsplit Hsuf) as He.
  repeat split; try assumption.
  intros tl vs. apply (encodeCaller_memEncoder (short c) pre tl He).
Qed.

Lemma C2_witness :
  exists pre suf,
    TrimmedPath main_caller = pre ++ String ":" suf /\
    has_byte ":" suf = false /\
    emits (short main_caller) pre /\
    forall (tl : bool) (vs : list Value),
      ShortCallerEncoder (list Value) (memEncoder true tl) main_caller vs =
      Ok (vs ++ [ObjectValue
                   (caller_fields (Function main_caller) pre (Line main_caller))])%list.
Proof. exact (C2_short_strips_last_colon main_caller eq_refl). Defined.

(** The example of the documentation, through the sink in memory. *)
Example main_caller_encodings :
  ShortCallerEncoder (list Value) (memEncoder true false) main_caller [] =
    Ok [ObjectValue (caller_fields "main.Run" "app/main.go" 42)] /\
  FullCallerEncoder (list Value) (memEncoder true false) main_caller [] =
    Ok [ObjectValue (caller_fields "main.Run" "/src/app/main.go" 42)].
Proof. split; reflexivity. Qed.

(** The two exported caller encoders are different functions. *)
Lemma Full_neq_Short : FullCallerEncoder <> ShortCallerEncoder.
Proof.
  intros E.
  assert (H : FullCallerEncoder (list Value) (memEncoder true false) main_caller [] =
              ShortCallerEncoder (list Value) (memEncoder true false) main_caller [])
    by now rewrite E.
  destruct main_caller_encodings as [Hs Hf]. rewrite Hs, Hf in H.
  discriminate H.
Qed.

(** C3. [UnmarshalText] selects the full variant exactly when the text is
    [full], byte for byte; for every other text, among them the empty text,
    [short], [FULL] and [xyz], it selects the short variant; and the error it
    returns is always nil. *)
Theorem C3_UnmarshalText_selects (e : CallerEncoder) (text : string) :
  snd (UnmarshalText e text) = nil_error /\
  (fst (UnmarshalText e text) = FullCallerEncoder <-> text = "full") /\
  (fst (UnmarshalText e text) = ShortCallerEncoder <-> text <> "full") /\
  fst (UnmarshalText e "") = ShortCallerEncoder /\
  fst (UnmarshalText e "short") = ShortCallerEncoder /\
  fst (UnmarshalText e "FULL") = ShortCallerEncoder /\
  fst (UnmarshalText e "xyz") = ShortCallerEncoder.
Proof.
  split; [reflexivity |]. split; [| split; [| repeat split; reflexivity]].
  - unfold UnmarshalText. cbn [fst].
    destruct (String.eqb text "full") eqn:Heq.
    + apply String.eqb_eq in Heq. now split.
    + apply String.eqb_neq in Heq. split; [| contradiction].
      intros H. symmetry in H. now apply Full_neq_Short in H.
  - unfold UnmarshalText. cbn [fst].
    destruct (String.eqb text "full") eqn:Heq.
    + apply String.eqb_eq in Heq. split; [| contradiction].
      intros H. now apply Full_neq_Short in H.
    + apply String.eqb_neq in Heq. now split.
Qed.

(** The full variant encodes every caller as the three fields [function],
    [file.name], [file.line], in this order, with the function, the file
    verbatim and the line of the caller; the short variant emits the same
    three fields, with the same function and line, for every caller whose
    trimmed path contains a colon. *)
Lemma three_fields_in_order (c : EntryCaller) :
  (emits (full c) (File c) /\
   MarshalLogObject (full c) (list Field) fieldRecorder [] =
     Ok (caller_fields (Function c) (File c) (Line c), nil_error)) /\
  (has_byte ":" (TrimmedPath c) = true ->
   exists name,
     emits (short c) name /\
     MarshalLogObject (short c) (list Field) fieldRecorder [] =
       Ok (caller_fields (Function c) name (Line c), nil_error)).
Proof.
  split.
  - split; [apply emits_full | apply emits_fields_nil, emits_full].
  - intros H. destruct (split_last_colon _ H) as (pre & suf & Hsplit & Hsuf).
    exists pre. pose proof (emits_short c pre suf Hsplit Hsuf) as He.
    split; [exact He | now apply emits_fields_nil].
Qed.

(** C4. Both variants are to emit the three fields [function], [file.name],
    [file.line] for every caller.  The full variant does so for the undefined
    caller; the short variant panics on it before its first field, so that it
    emits none. *)
Theorem C4_short_variant_emits_no_field_without_colon :
  emits_three_fields (full undefined_caller) /\
  MarshalLogObject (full undefined_caller) (list Field) fieldRecorder [] =
    Ok (caller_fields "" "" 0, nil_error) /\
  MarshalLogObject (short undefined_caller) (list Field) fieldRecorder [] =
    Panic "slice bounds out of range" /\
  ~ emits_three_fields (short undefined_caller).
Proof.
  split; [| split; [reflexivity | split; [reflexivity |]]].
  - exists (File undefined_caller). split; [apply emits_full | reflexivity].
  - intros (name & He & _).
    specialize (He (list Field) fieldRecorder []).
    rewrite (short_panics undefined_caller eq_refl) in He. discriminate He.
Qed.

(** C5. On a sink whose dynamic type lacks the methods of
    [zapcore.ArrayEncoder], both caller encoders return without a panic and
    leave the sink as it was. *)
Theorem C5_no_array_encoder_no_write
  (S : Type) (enc : PrimitiveArrayEncoder S) (c : EntryCaller) (s : S) :
  @as_ArrayEncoder S enc = None ->
  FullCallerEncoder S enc c s = Ok s /\
  ShortCallerEncoder S enc c s = Ok s /\
  forall c' : caller, @encodeCaller S enc c' s = Ok s.
Proof.
  intros H. unfold FullCallerEncoder, ShortCallerEncoder, encodeCaller.
  rewrite H. repeat split.
Qed.

Lemma C5_witness :
  FullCallerEncoder (list Value) (memEncoder false true) undefined_caller [] = Ok [] /\
  ShortCallerEncoder (list Value) (memEncoder false true) undefined_caller [] = Ok [] /\
  forall c' : caller, @encodeCaller (list Value) (memEncoder false true) c' [] = Ok [].
Proof.
  exact (C5_no_array_encoder_no_write
           (list Value) (memEncoder false true) undefined_caller [] eq_refl).
Defined.

(** For every caller whose trimmed path contains a colon, the full and the
    short variant both yield an object, and the two objects are equal field
    by field except for the value of [file.name]: the [function] and the
    [file.line] fields are identical. *)
Lemma variants_differ_only_in_file_name (c : EntryCaller) :
  has_byte ":" (TrimmedPath c) = true ->
  same_but_file_name c /\
  exists nf ns,
    MarshalLogObject (full c) (list Field) fieldRecorder [] =
      Ok (caller_fields (Function c) nf (Line c), nil_error) /\
    MarshalLogObject (short c) (list Field) fieldRecorder [] =
      Ok (caller_fields (Function c) ns (Line c), nil_error).
Proof.
  intros H. destruct (split_last_colon _ H) as (pre & suf & Hsplit & Hsuf).
  pose proof (emits_fields_nil _ _ (emits_full c)) as Hf.
  pose proof (emits_fields_nil _ _ (emits_short c pre suf Hsplit Hsuf)) as Hs.
  cbn [Function Line full short entry] in Hf, Hs.
  split.
  - eexists _, _. split; [exact Hf |]. split; [exact Hs |].
    unfold caller_fields, differ_only_in_file_name.
    constructor; [now left |].
    constructor; [right; split; reflexivity |].
    constructor; [now left | constructor].
  - exists (File c), pre. now split.
Qed.

Example main_caller_variants : same_but_file_name main_caller.
Proof. exact (proj1 (variants_differ_only_in_file_name main_caller eq_refl)). Qed.

(** C10. The two variants are to emit the same [function] and [file.line]
    for every caller.  For the undefined caller the full variant yields its
    three fields and the short variant, which panics, yields none: the two
    differ in more than [file.name]. *)
Theorem C10_variants_differ_beyond_file_name_without_colon :
  MarshalLogObject (full undefined_caller) (list Field) fieldRecorder [] =
    Ok (caller_fields "" "" 0, nil_error) /\
  MarshalLogObject (short undefined_caller) (list Field) fieldRecorder [] =
    Panic "slice bounds out of range" /\
  ~ same_but_file_name undefined_caller.
Proof.
  split; [reflexivity | split; [reflexivity |]].
  intros (ff & fs & _ & Hs & _).
  rewrite (short_panics undefined_caller eq_refl) in Hs. discriminate Hs.
Qed.

(** ** Decimal digits *)

Section Digits.

Local Open Scope list_scope.

Lemma length_fixed (k : nat) : forall v, List.length (fixed k v) = k.
Proof.
  induction k as [| k IH]; intros v; cbn [fixed].
  - reflexivity.
  - rewrite length_app, IH. cbn. lia.
Qed.

Lemma isDigit_digit (d : Z) : 0 <= d < 10 -> time.isDigit (time.digit d) = true.
Proof.
  intros H. unfold time.isDigit, time.digit.
  rewrite nat_ascii_embedding by lia.
  apply andb_true_iff. split; apply Nat.leb_le; lia.
Qed.

Lemma digits_fixed (k : nat) : forall v, forallb time.isDigit (fixed k v) = true.
Proof.
  induction k as [| k IH]; intros v; cbn [fixed].
  - reflexivity.
  - rewrite forallb_app, IH. cbn [forallb andb].
    rewrite isDigit_digit; [reflexivity |]. apply Z.mod_pos_bound. lia.
Qed.

Lemma fixed_zero (k : nat) : fixed k 0 = repeat "0"%char k.
Proof.
  induction k as [| k IH]; cbn [fixed].
  - reflexivity.
  - change (0 / 10) with 0. rewrite IH.
    change [time.digit (0 mod 10)] with (repeat "0"%char 1).
    rewrite <- repeat_app. f_equal. lia.
Qed.

(** Zero-padding the digits of a number that fits gives its fixed-width
    form. *)
Lemma utod_fixed (k : nat) :
  forall (fuel : nat) (v : Z),
    (1 <= k <= fuel)%nat -> 0 <= v < 10 ^ Z.of_nat k ->
    repeat "0"%char (k - List.length (time.utod fuel v)) ++ time.utod fuel v =
    fixed k v.
Proof.
  induction k as [| k IH]; intros fuel v Hk Hv; [lia |].
  destruct fuel as [| fuel]; [lia |].
  cbn [time.utod fixed].
  destruct (v <? 10) eqn:Hlt.
  - apply Z.ltb_lt in Hlt. rewrite Z.div_small by lia. rewrite fixed_zero.
    cbn [app List.length]. now replace (S k - 1)%nat with k by lia.
  - apply Z.ltb_ge in Hlt.
    assert (Hk1 : (1 <= k)%nat).
    { destruct k; [| lia]. cbn in Hv. lia. }
    rewrite length_app. cbn [List.length].
    replace (S k - (List.length (time.utod fuel (v / 10)) + 1))%nat
      with (k - List.length (time.utod fuel (v / 10)))%nat by lia.
    rewrite app_assoc. f_equal. apply IH; [lia |].
    rewrite Nat2Z.inj_succ, Z.pow_succ_r in Hv by lia.
    split; [apply Z.div_pos; lia | apply Z.div_lt_upper_bound; lia].
Qed.

Lemma appendInt_fixed (b : list ascii) (v : Z) (k : nat) :
  (1 <= k <= 20)%nat -> 0 <= v < 10 ^ Z.of_nat k ->
  time.appendInt b v k = b ++ fixed k v.
Proof.
  intros Hk Hv. unfold time.appendInt.
  replace (v <? 0) with false by (symmetry; apply Z.ltb_ge; lia).
  rewrite Z.abs_eq by lia. now rewrite utod_fixed.
Qed.

(** The leading digits of a fixed-width number. *)
Lemma firstn_fixed (k j : nat) :
  forall v, firstn k (fixed (j + k) v) = fixed k (v / 10 ^ Z.of_nat j).
Proof.
  induction j as [| j IH]; intros v.
  - cbn [Nat.add Z.of_nat]. rewrite Z.pow_0_r, Z.div_1_r.
    rewrite <- (length_fixed k v) at 1. apply firstn_all.
  - cbn [Nat.add fixed]. rewrite firstn_app, length_fixed.
    replace (k - (j + k))%nat with 0%nat by lia. cbn [firstn].
    rewrite app_nil_r, IH. f_equal.
    rewrite Nat2Z.inj_succ, Z.pow_succ_r, Z.div_div by lia. reflexivity.
Qed.

Lemma appendNano_fixed (b : list ascii) (nanosec : Z) :
  0 <= nanosec < 1000000000 ->
  time.appendNano b nanosec 3 = b ++ "."%char :: fixed 3 (nanosec / 1000000).
Proof.
  intros H. unfold time.appendNano.
  rewrite appendInt_fixed by (cbn; lia).
  rewrite <- app_assoc. cbn [app].
  rewrite length_app. cbn [List.length]. rewrite length_fixed.
  replace (List.length b + 10 - 9 + 3)%nat with (List.length b + 4)%nat by lia.
  rewrite firstn_app. replace (List.length b + 4 - List.length b)%nat with 4%nat by lia.
  rewrite firstn_all2 by lia. f_equal.
  change (firstn 4 ("."%char :: fixed 9 nanosec))
    with ("."%char :: firstn 3 (fixed (6 + 3) nanosec)).
  now rewrite firstn_fixed.
Qed.

Lemma string_of_list_ascii_app (l1 l2 : list ascii) :
  string_of_list_ascii (l1 ++ l2) =
  (string_of_list_ascii l1 ++ string_of_list_ascii l2)%string.
Proof.
  induction l1 as [| a l1 IH]; cbn; [reflexivity | now rewrite IH].
Qed.



Lemma is_digits_decimal (k : nat) (v : Z) : is_digits (decimal k v) = true.
Proof.
  unfold is_digits, decimal.
  now rewrite list_ascii_of_string_of_list_ascii, digits_fixed.
Qed.

End Digits.

(** ** The fields of a formatted time *)

Section Fields.

(** Month and day of every day of an era are a month and a day of the
    month. *)
Lemma era_day_range (doe : Z) :
  0 <= doe < 146097 ->
  1 <= snd (fst (time.era_day doe)) <= 12 /\
  1 <= snd (time.era_day doe) <= 31.
Proof.
  intros H. unfold time.era_day. cbn [fst snd].
  set (yoe := (doe - doe / 1460 + doe / 36524 - doe / 146096) / 365).
  set (doy := doe - (365 * yoe + yoe / 4 - yoe / 100)).
  assert (Hdoy : 0 <= doy <= 365)
    by (subst doy yoe; Z.div_mod_to_equations; lia).
  clearbody doy. clear yoe H.
  set (mp := (5 * doy + 2) / 153).
  assert (Hmp : 0 <= mp <= 11) by (subst mp; Z.div_mod_to_equations; lia).
  split.
  - destruct (mp <? 10) eqn:E; [apply Z.ltb_lt in E | apply Z.ltb_ge in E]; lia.
  - subst mp. Z.div_mod_to_equations. lia.
Qed.

Lemma Month_Day_range (t : time.Time) :
  1 <= time.Month t <= 12 /\ 1 <= time.Day t <= 31.
Proof.
  unfold time.Month, time.Day, time.civil.
  set (doe := (time.abs t / 86400 + 719468) mod 146097).
  assert (Hdoe : 0 <= doe < 146097) by (apply Z.mod_pos_bound; lia).
  pose proof (era_day_range doe Hdoe) as H.
  destruct (time.era_day doe) as [[y m] d]. exact H.
Qed.

Lemma Hour_range (t : time.Time) : 0 <= time.Hour t <= 23.
Proof.
  unfold time.Hour. pose proof (Z.mod_pos_bound (time.abs t) 86400 ltac:(lia)).
  split; [apply Z.div_pos; lia |].
  assert (time.abs t mod 86400 / 3600 < 24)
    by (apply Z.div_lt_upper_bound; lia).
  lia.
Qed.

Lemma Minute_range (t : time.Time) : 0 <= time.Minute t <= 59.
Proof.
  unfold time.Minute. pose proof (Z.mod_pos_bound (time.abs t) 3600 ltac:(lia)).
  split; [apply Z.div_pos; lia |].
  assert (time.abs t mod 3600 / 60 < 60)
    by (apply Z.div_lt_upper_bound; lia).
  lia.
Qed.

Lemma Second_range (t : time.Time) : 0 <= time.Second t <= 59.
Proof.
  unfold time.Second. pose proof (Z.mod_pos_bound (time.abs t) 60 ltac:(lia)).
  lia.
Qed.

End Fields.

(** ** The layout of the package, element by element *)

Section Layout.

Local Open Scope list_scope.

Lemma chunks_rfc3339millis :
  time.chunks 0 rfc3339millis =
  [time.stdLongYear; time.literal "-"; time.stdZeroMonth; time.literal "-";
   time.stdZeroDay; time.literal "T"; time.stdHour; time.literal ":";
   time.stdZeroMinute; time.literal ":"; time.stdZeroSecond;
   time.stdFracSecond0 3; time.stdISO8601ColonTZ].
Proof. reflexivity. Qed.

Lemma appendInt_app (b : list ascii) (x : Z) (w : nat) :
  time.appendInt b x w = b ++ time.appendInt [] x w.
Proof.
  unfold time.appendInt. destruct (x <? 0); cbn [app];
    now rewrite <- ?app_assoc.
Qed.

(** Moves the buffer out of every [appendInt]. *)
Ltac appendInt_out :=
  repeat match goal with
         | |- context [time.appendInt ?b ?x ?w] =>
             lazymatch b with
             | [] => fail
             | _ => rewrite (appendInt_app b x w)
             end
         end.

Lemma appendZone_app (b : list ascii) (off : Z) :
  time.appendZone b off = b ++ time.appendZone [] off.
Proof.
  unfold time.appendZone. destruct (off =? 0); [reflexivity |].
  destruct (Z.quot off 60 <? 0); cbn [app]; appendInt_out;
    now rewrite <- !app_assoc.
Qed.

(** The bytes of a number are digits and, at most, a sign. *)
Lemma utod_digits (fuel : nat) :
  forall u, forallb time.isDigit (time.utod fuel u) = true.
Proof.
  induction fuel as [| fuel IH]; intros u; cbn [time.utod]; [reflexivity |].
  rewrite forallb_app. cbn [forallb].
  rewrite isDigit_digit by (apply Z.mod_pos_bound; lia).
  destruct (u <? 10); [reflexivity | now rewrite IH].
Qed.

Lemma appendInt_has_byte (c : ascii) (x : Z) (w : nat) :
  time.isDigit c = false -> c <> "-"%char ->
  has_byte c (string_of_list_ascii (time.appendInt [] x w)) = false.
Proof.
  intros Hc Hsign.
  assert (Hd : forall l, forallb time.isDigit l = true ->
                         has_byte c (string_of_list_ascii l) = false).
  { induction l as [| a l IH]; cbn; [reflexivity |].
    intros H. apply andb_true_iff in H as [Ha Hl]. rewrite (IH Hl).
    destruct (Ascii.eqb a c) eqn:E; [| reflexivity].
    apply Ascii.eqb_eq in E. subst a. congruence. }
  assert (Hz : forall n, forallb time.isDigit (repeat "0"%char n) = true).
  { induction n; cbn; [reflexivity | assumption]. }
  assert (Hds : has_byte c
                  (string_of_list_ascii
                     (repeat "0"%char (w - List.length (time.utod 20 (Z.abs x))) ++
                      time.utod 20 (Z.abs x))) = false).
  { apply Hd. rewrite forallb_app, Hz, utod_digits. reflexivity. }
  unfold time.appendInt.
  destruct (x <? 0); cbn [app string_of_list_ascii has_byte]; [| exact Hds].
  rewrite Hds, orb_false_r. apply Ascii.eqb_neq. congruence.
Qed.




End Layout.

(** ** Time encoders *)

(** The layout of the package renders every valid time as
    [YYYY-MM-DDTHH:mm:ss.sss] and the zone. *)
Lemma Format_rfc3339millis (t : time.Time) :
  time.valid t ->
  time.Format t rfc3339millis =
  fixed_format t (string_of_list_ascii (time.appendInt [] (time.Year t) 4))
                 (string_of_list_ascii (time.appendZone [] (time.offset t))).
Proof.
  intros Hv. unfold time.Format, time.AppendFormat.
  rewrite chunks_rfc3339millis. cbn [fold_left time.appendStd].
  destruct (Month_Day_range t) as [Hm Hd].
  pose proof (Hour_range t) as Hh. pose proof (Minute_range t) as Hmi.
  pose proof (Second_range t) as Hs.
  rewrite appendZone_app, (appendNano_fixed _ _ Hv).
  rewrite (appendInt_fixed _ (time.Second t) 2)
    by (try change (10 ^ Z.of_nat 2) with 100; lia).
  rewrite (appendInt_fixed _ (time.Minute t) 2)
    by (try change (10 ^ Z.of_nat 2) with 100; lia).
  rewrite (appendInt_fixed _ (time.Hour t) 2)
    by (try change (10 ^ Z.of_nat 2) with 100; lia).
  rewrite (appendInt_fixed _ (time.Day t) 2)
    by (try change (10 ^ Z.of_nat 2) with 100; lia).
  rewrite (appendInt_fixed _ (time.Month t) 2)
    by (try change (10 ^ Z.of_nat 2) with 100; lia).
  cbn [app]. rewrite <- !app_assoc. cbn [app].
  unfold fixed_format, decimal.
  repeat (rewrite ?string_of_list_ascii_app; cbn [string_of_list_ascii append]).
  reflexivity.
Qed.

Lemma wrap64_in_range (x : Z) :
  -9223372036854775808 <= x < 9223372036854775808 -> time.wrap64 x = x.
Proof. intros H. unfold time.wrap64. rewrite Z.mod_small; lia. Qed.

(** Within the range of [int64], [UnixNano] is the count of nanoseconds
    since the epoch. *)
Lemma UnixNano_in_range (t : time.Time) :
  -9223372036854775808 <= time.unixSec t * 1000000000 + time.nsec t
     < 9223372036854775808 ->
  time.UnixNano t = time.unixSec t * 1000000000 + time.nsec t.
Proof. apply wrap64_in_range. Qed.

(** The sink in memory honours the contract of [AppendTimeLayout]. *)
Lemma memEncoder_formats_with_layout (arr tl : bool) (layout : string) :
  formats_with_layout (memEncoder arr tl) layout.
Proof.
  intros e He t s. destruct tl; cbn in He; [| discriminate He].
  injection He as <-. reflexivity.
Qed.

(** A sink without the optional method honours its contract. *)
Lemma without_AppendTimeLayout_formats
  (S : Type) (enc : PrimitiveArrayEncoder S) (layout : string) :
  formats_with_layout (without_AppendTimeLayout enc) layout.
Proof. intros e He. discriminate He. Qed.

(** *** The JSON sink and the layout of the package *)

Section JsonSink.

Local Open Scope list_scope.

Lemma isDigit_safe (c : ascii) : time.isDigit c = true -> json.safe c = true.
Proof.
  destruct c as [[] [] [] [] [] [] [] []]; intros H;
    try reflexivity; discriminate H.
Qed.

Lemma safe_digits (l : list ascii) :
  forallb time.isDigit l = true -> forallb json.safe l = true.
Proof.
  induction l as [| a l IH]; cbn [forallb]; [reflexivity |].
  intros H. apply andb_true_iff in H as [Ha Hl].
  now rewrite (isDigit_safe a Ha), (IH Hl).
Qed.

Lemma safe_appendInt (b : list ascii) (x : Z) (w : nat) :
  forallb json.safe b = true ->
  forallb json.safe (time.appendInt b x w) = true.
Proof.
  intros Hb. unfold time.appendInt.
  assert (Hz : forallb json.safe (repeat "0"%char (w - List.length (time.utod 20 (Z.abs x)))) = true).
  { induction (w - List.length (time.utod 20 (Z.abs x)))%nat; cbn; auto. }
  destruct (x <? 0); rewrite !forallb_app, Hb, Hz, (safe_digits _ (utod_digits 20 _));
    reflexivity.
Qed.

Lemma safe_firstn (n : nat) (l : list ascii) :
  forallb json.safe l = true -> forallb json.safe (firstn n l) = true.
Proof.
  revert n. induction l as [| a l IH]; intros [| n] H; cbn; try reflexivity.
  cbn in H. apply andb_true_iff in H as [Ha Hl]. now rewrite Ha, IH.
Qed.

Lemma safe_appendNano (b : list ascii) (nanosec : Z) (n : nat) :
  forallb json.safe b = true ->
  forallb json.safe (time.appendNano b nanosec n) = true.
Proof.
  intros Hb. unfold time.appendNano. apply safe_firstn, safe_appendInt.
  now rewrite forallb_app, Hb.
Qed.

Lemma safe_appendZone (b : list ascii) (off : Z) :
  forallb json.safe b = true ->
  forallb json.safe (time.appendZone b off) = true.
Proof.
  intros Hb. unfold time.appendZone.
  destruct (off =? 0); [now rewrite forallb_app, Hb |].
  apply safe_appendInt. rewrite forallb_app. apply andb_true_iff.
  split; [| reflexivity]. apply safe_appendInt.
  destruct (Z.quot off 60 <? 0); now rewrite forallb_app, Hb.
Qed.

Lemma safe_literal (b : list ascii) (c : ascii) :
  json.safe c = true -> forallb json.safe b = true ->
  forallb json.safe (b ++ [c]) = true.
Proof. intros Hc Hb. rewrite forallb_app, Hb. cbn. now rewrite Hc. Qed.

(** A time formatted with the layout of the package has no byte that JSON
    escapes. *)
Lemma Format_rfc3339millis_safe (t : time.Time) :
  forallb json.safe (time.AppendFormat t [] rfc3339millis) = true.
Proof.
  unfold time.AppendFormat. rewrite chunks_rfc3339millis.
  cbn [fold_left time.appendStd].
  repeat first [ apply safe_appendZone | apply safe_appendNano
               | apply safe_appendInt | apply safe_literal; [reflexivity |] ].
  reflexivity.
Qed.

Lemma escaped_safe (l : list ascii) :
  forallb json.safe l = true ->
  json.escaped (string_of_list_ascii l) = string_of_list_ascii l.
Proof.
  induction l as [| a l IH]; cbn [forallb string_of_list_ascii json.escaped];
    [reflexivity |].
  intros H. apply andb_true_iff in H as [Ha Hl].
  unfold json.escape. rewrite Ha, (IH Hl). reflexivity.
Qed.

(** The JSON sink honours the contract for the layout of the package: the
    formatted time needs no escaping. *)
Lemma json_encoder_formats_rfc3339millis (formatFloat : float64.t -> string) :
  formats_with_layout (json.encoder formatFloat) rfc3339millis.
Proof.
  intros e He t buf. injection He as <-.
  cbn [AppendTimeLayout AppendString json.encoder].
  unfold json.appendTimeLayout, json.appendString, time.Format.
  now rewrite (escaped_safe _ (Format_rfc3339millis_safe t)).
Qed.

End JsonSink.

(** On a sink that honours the contract, the encoder appends the formatted
    string, whichever path it takes. *)
Lemma RFC3339TimeEncoder_appends_string
  (S : Type) (enc : PrimitiveArrayEncoder S) (t : time.Time) (s : S) :
  formats_with_layout enc rfc3339millis ->
  @RFC3339TimeEncoder S enc t s =
  @AppendString S enc (time.Format t rfc3339millis) s.
Proof.
  intros Hc. unfold RFC3339TimeEncoder.
  destruct (@as_appendTimeEncoder S enc) as [e |] eqn:He; [| reflexivity].
  apply (Hc e He).
Qed.

(** C6. The UTC encoder does to a sink what the fixed-format encoder does
    for the same instant presented at offset zero. *)
Theorem C6_utc_encoder_normalizes_to_utc
  (S : Type) (enc : PrimitiveArrayEncoder S) (t : time.Time) (s : S) :
  @RFC3339UTCTimeEncoder S enc t s =
    @RFC3339TimeEncoder S enc (time.In t time.UTC) s /\
  time.offset (time.In t time.UTC) = 0 /\
  time.unixSec (time.In t time.UTC) = time.unixSec t /\
  time.nsec (time.In t time.UTC) = time.nsec t.
Proof. repeat split. Qed.

(** The microseconds of the documentation's example, 1619863200123456
    exactly, and a microsecond and a half: the quotient is not rounded to an
    integer. *)
Example epoch_micros_examples :
  @EpochMicrosTimeEncoder (list Value) (memEncoder false false) may_day [] =
    [Float64Value (S754_finite false 6479452800493824 (-2))] /\
  6479452800493824 = 1619863200123456 * 2 ^ 2 /\
  @EpochMicrosTimeEncoder (list Value) (memEncoder false false)
    {| time.unixSec := 0; time.nsec := 1500; time.loc := time.UTC |} [] =
    [Float64Value (S754_finite false 6755399441055744 (-52))] /\
  2 * 6755399441055744 = 3 * 2 ^ 52.
Proof. repeat split; vm_compute; reflexivity. Qed.

(** C7 fails if the nanoseconds are meant to be divided exactly.  At
    2021-05-01T10:00:00.123472Z the count is 1619863200123472000 ns; its
    thousandth, 1619863200123472, is a float64, and the encoder appends
    1619863200123471.75: the conversion of the count to float64 has rounded
    it to 1619863200123471872 before the division. *)
Lemma C7_counterexample :
  ~ exists x : float64.t,
      @EpochMicrosTimeEncoder (list Value) (memEncoder false false)
        may_day_16us [] = [Float64Value x] /\
      float64.nearest (inject_Z (time.UnixNano may_day_16us) / 1000)%Q x.
Proof.
  intros (x & Hx & _ & qx & Hqx & Hmin).
  assert (Hcode : @EpochMicrosTimeEncoder (list Value) (memEncoder false false)
                    may_day_16us [] =
                  [Float64Value (S754_finite false 6479452800493887 (-2))])
    by (vm_compute; reflexivity).
  rewrite Hcode in Hx. injection Hx as <-.
  injection Hqx as <-.
  specialize (Hmin (S754_finite false 6479452800493888 (-2)) _ eq_refl eq_refl).
  apply Qle_bool_iff in Hmin. vm_compute in Hmin. discriminate Hmin.
Qed.

Lemma may_day_valid : time.valid may_day.
Proof. unfold time.valid. cbn. lia. Qed.

(** The UTC encoder always writes the zone [Z]. *)
Lemma RFC3339UTCTimeEncoder_zone_Z
  (S : Type) (enc : PrimitiveArrayEncoder S) (t : time.Time) (s : S) :
  formats_with_layout enc rfc3339millis ->
  time.valid t ->
  exists year : string,
    @RFC3339UTCTimeEncoder S enc t s =
    @AppendString S enc (fixed_format (time.In t time.UTC) year "Z") s.
Proof.
  intros Hc Hv. unfold RFC3339UTCTimeEncoder.
  rewrite (RFC3339TimeEncoder_appends_string S enc _ s Hc).
  rewrite (Format_rfc3339millis (time.In t time.UTC) Hv).
  now eexists.
Qed.

(** The strings of the documentation's example and of the same instant five
    and a half hours east. *)
Example fixed_format_examples :
  @RFC3339UTCTimeEncoder (list Value) (memEncoder false false) may_day [] =
    [StringValue "2021-05-01T10:00:00.123Z"] /\
  @RFC3339UTCTimeEncoder (list Value) (memEncoder false true)
    (time.In may_day kolkata) [] =
    [StringValue "2021-05-01T10:00:00.123Z"] /\
  @RFC3339TimeEncoder (list Value) (memEncoder false true)
    (time.In may_day kolkata) [] =
    [StringValue "2021-05-01T15:30:00.123+05:30"].
Proof. repeat split; vm_compute; reflexivity. Qed.

(** The JSON text of the documentation's examples: a time on either path,
    and a caller in both variants. *)
Example json_examples :
  @RFC3339UTCTimeEncoder string (json.encoder (fun _ => "")) may_day "[" =
    "[" ++ json.quoted "2021-05-01T10:00:00.123Z" /\
  @RFC3339UTCTimeEncoder string
    (without_AppendTimeLayout (json.encoder (fun _ => ""))) may_day "[" =
    "[" ++ json.quoted "2021-05-01T10:00:00.123Z" /\
  ShortCallerEncoder string (json.encoder (fun _ => "")) main_caller "" =
    Ok ("{" ++ json.quoted "function" ++ ":" ++ json.quoted "main.Run" ++ "," ++
        json.quoted "file.name" ++ ":" ++ json.quoted "app/main.go" ++ "," ++
        json.quoted "file.line" ++ ":42}") /\
  FullCallerEncoder string (json.encoder (fun _ => "")) main_caller "" =
    Ok ("{" ++ json.quoted "function" ++ ":" ++ json.quoted "main.Run" ++ "," ++
        json.quoted "file.name" ++ ":" ++ json.quoted "/src/app/main.go" ++ "," ++
        json.quoted "file.line" ++ ":42}") /\
  ShortCallerEncoder string (json.encoder (fun _ => "")) undefined_caller "" =
    Panic "slice bounds out of range".
Proof. repeat split; vm_compute; reflexivity. Qed.

(** The contract is one of a layout: for a layout that is a double quote,
    the JSON sink writes the quote as it is on the fast path and escaped on
    the fallback path. *)
Remark json_encoder_layout_with_quote :
  ~ formats_with_layout (json.encoder (fun _ => "")) (String json.quote "").
Proof.
  intros H. specialize (H _ eq_refl may_day ""). vm_compute in H.
  discriminate H.
Qed.

(** ** The trimmed path of a defined caller *)

(** When the trimmed path is a path followed by a colon and the line in
    decimal, as zapcore builds it for a defined caller, the short variant
    names the path. *)
Lemma emits_short_path_line (c : EntryCaller) (path : string) (line : Z) :
  TrimmedPath c = path ++ ":" ++ json.itoa line ->
  emits (short c) path.
Proof.
  intros H. apply (emits_short c path (json.itoa line) H).
  apply appendInt_has_byte; [reflexivity | discriminate].
Qed.

(** * Further properties of the encoders *)

(** ** Caller encoders *)


(** X2. When the trimmed path is a path, a colon and a line number in
    decimal, the short variant names that path, also when the path has
    colons of its own. *)
Theorem X2_short_names_path_before_line
  (c : EntryCaller) (path : string) (line : Z) :
  TrimmedPath c = path ++ ":" ++ json.itoa line ->
  emits (short c) path /\
  forall (tl : bool) (vs : list Value),
    ShortCallerEncoder (list Value) (memEncoder true tl) c vs =
    Ok (vs ++ [ObjectValue (caller_fields (Function c) path (Line c))])%list.
Proof.
  intros H. pose proof (emits_short_path_line c path line H) as He.
  split; [exact He |].
  intros tl vs. apply (encodeCaller_memEncoder (short c) path tl He).
Qed.

Lemma X2_witness :
  emits (short drive_caller) "C:/main.go" /\
  forall (tl : bool) (vs : list Value),
    ShortCallerEncoder (list Value) (memEncoder true tl) drive_caller vs =
    Ok (vs ++ [ObjectValue
                 (caller_fields (Function drive_caller) "C:/main.go"
                    (Line drive_caller))])%list.
Proof.
  exact (X2_short_names_path_before_line drive_caller "C:/main.go" 7 eq_refl).
Defined.

(** X3. On every sink, what the full variant does depends on the caller's
    file, function and line only: it looks neither at [Defined] nor at the
    trimmed path.  What the short variant does depends only on the string
    that [TrimmedPath()] returns, on the function and on the line: the file
    and [Defined] matter to it through that string alone. *)
Theorem X3_encoders_read_three_values
  (S : Type) (enc : PrimitiveArrayEncoder S) (s : S) :
  (forall c c' : EntryCaller,
     File c = File c' -> Function c = Function c' -> Line c = Line c' ->
     FullCallerEncoder S enc c s = FullCallerEncoder S enc c' s) /\
  (forall c c' : EntryCaller,
     TrimmedPath c = TrimmedPath c' -> Function c = Function c' ->
     Line c = Line c' ->
     ShortCallerEncoder S enc c s = ShortCallerEncoder S enc c' s).
Proof.
  split; intros [d f l fn tp] [d' f' l' fn' tp']; cbn;
    intros -> -> ->; reflexivity.
Qed.

Lemma X3_witness :
  FullCallerEncoder (list Value) (memEncoder true false) main_caller [] =
    FullCallerEncoder (list Value) (memEncoder true false) unmarked_caller [] /\
  ShortCallerEncoder (list Value) (memEncoder true false) main_caller [] =
    ShortCallerEncoder (list Value) (memEncoder true false) other_tree_caller [].
Proof.
  split.
  - exact (proj1 (X3_encoders_read_three_values
                    (list Value) (memEncoder true false) [])
             main_caller unmarked_caller eq_refl eq_refl eq_refl).
  - exact (proj2 (X3_encoders_read_three_values
                    (list Value) (memEncoder true false) [])
             main_caller other_tree_caller eq_refl eq_refl eq_refl).
Defined.

(** ** Time encoders *)

Section SameInstant.

Local Open Scope list_scope.

(** Formatting reads the instant and the offset of a time, nothing else of
    its location. *)
Lemma Format_same_offset (t t' : time.Time) (layout : string) :
  time.unixSec t = time.unixSec t' ->
  time.nsec t = time.nsec t' ->
  time.offset t = time.offset t' ->
  time.Format t layout = time.Format t' layout.
Proof.
  intros Hs Hn Ho. unfold time.Format, time.AppendFormat. f_equal.
  generalize (@nil ascii) as b.
  induction (time.chunks 0 layout) as [| ch chs IH]; intros b; [reflexivity |].
  cbn [fold_left]. rewrite IH. f_equal.
  destruct ch; cbn [time.appendStd];
    unfold time.Year, time.Month, time.Day, time.Hour, time.Minute,
      time.Second, time.abs;
    now rewrite ?Hs, ?Hn, ?Ho.
Qed.

End SameInstant.

(** X4. Two times that denote the same instant, whatever their locations,
    are encoded alike by the UTC encoder and by the microsecond encoder, on
    every sink. *)
Theorem X4_same_instant_same_encoding
  (S : Type) (enc : PrimitiveArrayEncoder S) (t t' : time.Time) (s : S) :
  time.unixSec t = time.unixSec t' ->
  time.nsec t = time.nsec t' ->
  @RFC3339UTCTimeEncoder S enc t s = @RFC3339UTCTimeEncoder S enc t' s /\
  @EpochMicrosTimeEncoder S enc t s = @EpochMicrosTimeEncoder S enc t' s.
Proof.
  intros Hs Hn. split.
  - unfold RFC3339UTCTimeEncoder, time.In. now rewrite Hs, Hn.
  - unfold EpochMicrosTimeEncoder, time.UnixNano. now rewrite Hs, Hn.
Qed.

Lemma X4_witness :
  @RFC3339UTCTimeEncoder string (json.encoder (fun _ => "")) may_day "" =
    @RFC3339UTCTimeEncoder string (json.encoder (fun _ => ""))
      (time.In may_day kolkata) "" /\
  @EpochMicrosTimeEncoder string (json.encoder (fun _ => "")) may_day "" =
    @EpochMicrosTimeEncoder string (json.encoder (fun _ => ""))
      (time.In may_day kolkata) "".
Proof.
  exact (X4_same_instant_same_encoding
           string (json.encoder (fun _ => "")) may_day (time.In may_day kolkata)
           "" eq_refl eq_refl).
Defined.

(** X5. For a time whose location is at offset zero at that instant, the
    fixed-format encoder and the UTC encoder leave a sink that honours the
    contract of [AppendTimeLayout] in the same state. *)
Theorem X5_offset_zero_encoders_agree
  (S : Type) (enc : PrimitiveArrayEncoder S) (t : time.Time) (s : S) :
  formats_with_layout enc rfc3339millis ->
  time.offset t = 0 ->
  @RFC3339TimeEncoder S enc t s = @RFC3339UTCTimeEncoder S enc t s.
Proof.
  intros Hc Ho. unfold RFC3339UTCTimeEncoder.
  rewrite !(RFC3339TimeEncoder_appends_string S enc _ s Hc). f_equal.
  apply Format_same_offset; [reflexivity | reflexivity | exact Ho].
Qed.

Lemma X5_witness :
  @RFC3339TimeEncoder string (json.encoder (fun _ => "")) new_year "" =
  @RFC3339UTCTimeEncoder string (json.encoder (fun _ => "")) new_year "".
Proof.
  exact (X5_offset_zero_encoders_agree
           string (json.encoder (fun _ => "")) new_year ""
           (json_encoder_formats_rfc3339millis (fun _ => "")) eq_refl).
Defined.

Section Width.




End Width.



Section Alphabet.

Local Open Scope list_scope.

Variable P : ascii -> bool.
Hypothesis P_digit : forall c, time.isDigit c = true -> P c = true.
Hypothesis P_minus : P "-" = true.
Hypothesis P_plus : P "+" = true.
Hypothesis P_dot : P "." = true.
Hypothesis P_colon : P ":" = true.
Hypothesis P_Z : P "Z" = true.

Lemma all_digits (l : list ascii) :
  forallb time.isDigit l = true -> forallb P l = true.
Proof.
  induction l as [| a l IH]; cbn [forallb]; [reflexivity |].
  intros H. apply andb_true_iff in H as [Ha Hl].
  now rewrite (P_digit a Ha), (IH Hl).
Qed.

Lemma all_appendInt (b : list ascii) (x : Z) (w : nat) :
  forallb P b = true -> forallb P (time.appendInt b x w) = true.
Proof.
  intros Hb. unfold time.appendInt.
  assert (Hz : forall n, forallb P (repeat "0"%char n) = true).
  { induction n; cbn [repeat forallb]; [reflexivity |].
    now rewrite (P_digit "0" eq_refl). }
  destruct (x <? 0);
    rewrite !forallb_app, Hb, Hz, (all_digits _ (utod_digits 20 _));
    cbn [forallb]; now rewrite ?P_minus.
Qed.

Lemma all_firstn (n : nat) (l : list ascii) :
  forallb P l = true -> forallb P (firstn n l) = true.
Proof.
  revert n. induction l as [| a l IH]; intros [| n] H; cbn; try reflexivity.
  cbn in H. apply andb_true_iff in H as [Ha Hl]. now rewrite Ha, IH.
Qed.

Lemma all_literal (b : list ascii) (c : ascii) :
  P c = true -> forallb P b = true -> forallb P (b ++ [c]) = true.
Proof. intros Hc Hb. rewrite forallb_app, Hb. cbn. now rewrite Hc. Qed.

Lemma all_appendNano (b : list ascii) (nanosec : Z) (n : nat) :
  forallb P b = true -> forallb P (time.appendNano b nanosec n) = true.
Proof.
  intros Hb. unfold time.appendNano.
  now apply all_firstn, all_appendInt, all_literal.
Qed.

Lemma all_appendZone (b : list ascii) (off : Z) :
  forallb P b = true -> forallb P (time.appendZone b off) = true.
Proof.
  intros Hb. unfold time.appendZone.
  destruct (off =? 0); [now apply all_literal |].
  apply all_appendInt, all_literal; [exact P_colon |]. apply all_appendInt.
  destruct (Z.quot off 60 <? 0); now apply all_literal.
Qed.

Lemma all_Format_rfc3339millis (t : time.Time) :
  P "T" = true ->
  forallb P (list_ascii_of_string (time.Format t rfc3339millis)) = true.
Proof.
  intros P_T. unfold time.Format, time.AppendFormat.
  rewrite list_ascii_of_string_of_list_ascii, chunks_rfc3339millis.
  cbn [fold_left time.appendStd].
  repeat first [ apply all_appendZone | apply all_appendNano
               | apply all_appendInt
               | apply all_literal; [assumption |] ].
  reflexivity.
Qed.

End Alphabet.

(** X7. Whatever the time, the string of the fixed format is made of digits
    and of the bytes [-], [:], [.], [T], [Z] and [+] only: it has no space,
    no quote, no backslash and no control byte. *)
Theorem X7_fixed_format_alphabet (t : time.Time) :
  forallb in_time_alphabet
    (list_ascii_of_string (time.Format t rfc3339millis)) = true /\
  forallb json.safe (list_ascii_of_string (time.Format t rfc3339millis)) = true.
Proof.
  split.
  - apply all_Format_rfc3339millis; try reflexivity.
    intros c Hc. unfold in_time_alphabet. now rewrite Hc.
  - apply all_Format_rfc3339millis; try reflexivity. apply isDigit_safe.
Qed.

(** ** The microsecond encoder never appends a NaN or an infinity *)

Section Float.

Lemma digits2_pos_bound (p : positive) :
  2 ^ (Zpos (digits2_pos p) - 1) <= Zpos p < 2 ^ Zpos (digits2_pos p).
Proof.
  induction p as [p IH | p IH |]; cbn [digits2_pos].
  - rewrite Pos2Z.inj_succ.
    replace (Z.succ (Zpos (digits2_pos p)) - 1) with (Z.succ (Zpos (digits2_pos p) - 1)) by lia.
    rewrite !Z.pow_succ_r by lia. lia.
  - rewrite Pos2Z.inj_succ.
    replace (Z.succ (Zpos (digits2_pos p)) - 1) with (Z.succ (Zpos (digits2_pos p) - 1)) by lia.
    rewrite !Z.pow_succ_r by lia. lia.
  - cbn. lia.
Qed.

Lemma Zdigits2_le (m k : Z) : 0 <= k -> 0 <= m < 2 ^ k -> 0 <= Zdigits2 m <= k.
Proof.
  intros Hk [Hm0 Hm]. destruct m as [| p | p]; cbn [Zdigits2]; [lia | | lia].
  split; [lia |].
  destruct (digits2_pos_bound p) as [Hlo _].
  assert (Hlt : 2 ^ (Zpos (digits2_pos p) - 1) < 2 ^ k) by lia.
  apply Z.pow_lt_mono_r_iff in Hlt; lia.
Qed.

Lemma shr_1_m (mrs : shr_record) :
  0 <= shr_m mrs -> 0 <= shr_m (shr_1 mrs) <= shr_m mrs.
Proof.
  destruct mrs as [m r s]. cbn [shr_m]. intros H.
  destruct m as [| [p | p |] | p]; cbn [shr_1 shr_m]; lia.
Qed.

Lemma iter_shr_1_m (p : positive) :
  forall mrs, 0 <= shr_m mrs ->
    0 <= shr_m (iter_pos shr_1 p mrs) <= shr_m mrs.
Proof.
  induction p as [p IH | p IH |]; intros mrs H; cbn [iter_pos].
  - pose proof (shr_1_m mrs H) as H1.
    pose proof (IH _ (proj1 H1)) as H2.
    pose proof (IH _ (proj1 H2)) as H3. lia.
  - pose proof (IH _ H) as H2.
    pose proof (IH _ (proj1 H2)) as H3. lia.
  - apply shr_1_m, H.
Qed.

Lemma shr_record_of_loc_m (m : Z) (l : location) :
  shr_m (shr_record_of_loc m l) = m.
Proof. destruct l as [| []]; reflexivity. Qed.

(** One rounding shift: the mantissa does not grow, the exponent does not
    shrink and stays below the larger of itself and the exponent of the format. *)
Lemma shr_fexp_bounds (m e : Z) (l : location) (k : Z) :
  0 <= k -> 0 <= m < 2 ^ k -> -1074 <= e ->
  let '(mrs, e') := shr_fexp 53 1024 m e l in
  0 <= shr_m mrs <= m /\ e <= e' <= e + k.
Proof.
  intros Hk Hm He. unfold shr_fexp, shr.
  pose proof (Zdigits2_le m k Hk Hm) as Hd.
  unfold fexp, emin.
  destruct (Z.max (Zdigits2 m + e - 53) (3 - 1024 - 53) - e) as [| p | p] eqn:Hn.
  - rewrite shr_record_of_loc_m. lia.
  - pose proof (iter_shr_1_m p (shr_record_of_loc m l)) as Hi.
    rewrite shr_record_of_loc_m in Hi. specialize (Hi (proj1 Hm)). lia.
  - rewrite shr_record_of_loc_m. lia.
Qed.

Lemma round_nearest_even_bounds (m : Z) (l : location) :
  0 <= m -> m <= round_nearest_even m l <= m + 1.
Proof.
  intros H. destruct l as [| []]; cbn [round_nearest_even]; try lia.
  destruct (Z.even m); lia.
Qed.

Lemma binary_round_aux_bounds (sx : bool) (mx ex : Z) (lx : location) (k : Z) :
  0 <= k -> 0 <= mx < 2 ^ k -> -1074 <= ex -> ex + 2 * k + 1 <= 971 ->
  binary_round_aux 53 1024 sx mx ex lx = S754_zero sx \/
  exists m e,
    binary_round_aux 53 1024 sx mx ex lx = S754_finite sx m e /\
    Zpos m <= 2 ^ k /\ ex <= e <= ex + 2 * k + 1.
Proof.
  intros Hk Hm He Hb. unfold binary_round_aux.
  pose proof (shr_fexp_bounds mx ex lx k Hk Hm He) as H1.
  destruct (shr_fexp 53 1024 mx ex lx) as [mrs' e'].
  destruct H1 as [Hm1 He1].
  pose proof (round_nearest_even_bounds (shr_m mrs') (loc_of_shr_record mrs') (proj1 Hm1)) as Hr.
  set (m2 := round_nearest_even (shr_m mrs') (loc_of_shr_record mrs')) in *.
  assert (Hm2 : 0 <= m2 < 2 ^ (k + 1)) by (rewrite Z.pow_add_r, Z.pow_1_r; lia).
  pose proof (shr_fexp_bounds m2 e' loc_Exact (k + 1) ltac:(lia) Hm2 ltac:(lia)) as H2.
  destruct (shr_fexp 53 1024 m2 e' loc_Exact) as [mrs'' e''].
  destruct H2 as [Hm3 He3].
  destruct (shr_m mrs'') as [| p | p] eqn:Hp; [now left | | lia].
  right. exists p, e''.
  replace (e'' <=? 1024 - 53) with true by (symmetry; apply Z.leb_le; lia).
  repeat split; lia.
Qed.


Lemma iter_xO (d p : positive) :
  Zpos (Pos.iter xO p d) = Zpos p * 2 ^ Zpos d.
Proof.
  induction d as [| d IH] using Pos.peano_ind.
  - cbn. lia.
  - rewrite Pos.iter_succ, Pos2Z.inj_xO, IH, Pos2Z.inj_succ, Z.pow_succ_r by lia.
    lia.
Qed.

(** The conversion of an integer of 64 bits is a zero or a finite float with
    the sign of the integer. *)
Lemma of_int_bounds (n : Z) :
  -9223372036854775808 <= n < 9223372036854775808 ->
  float64.of_int n = S754_zero (n <? 0) \/
  exists m e,
    float64.of_int n = S754_finite (n <? 0) m e /\
    Zpos m <= 2 ^ 64 /\ -52 <= e <= 129.
Proof.
  intros Hn. unfold float64.of_int, binary_normalize.
  assert (Hround : forall (sx : bool) (mx : positive),
             Zpos mx < 2 ^ 64 ->
             binary_round 53 1024 sx mx 0 = S754_zero sx \/
             exists m e,
               binary_round 53 1024 sx mx 0 = S754_finite sx m e /\
               Zpos m <= 2 ^ 64 /\ -52 <= e <= 129).
  { intros sx mx Hmx. unfold binary_round, shl_align, fexp, emin.
    destruct (digits2_pos_bound mx) as [Hlo Hhi].
    set (dg := Zpos (digits2_pos mx)) in *.
    assert (Hdg : 1 <= dg) by (subst dg; lia).
    destruct (Z.max (dg + 0 - 53) (3 - 1024 - 53) - 0) as [| d | d] eqn:Hd.
    - destruct (binary_round_aux_bounds sx (Zpos mx) 0 loc_Exact 64)
        as [Hz | (m & e & Hf & Hm & He)]; try lia.
      + now left.
      + right. exists m, e. repeat split; try assumption; lia.
    - destruct (binary_round_aux_bounds sx (Zpos mx) 0 loc_Exact 64)
        as [Hz | (m & e & Hf & Hm & He)]; try lia.
      + now left.
      + right. exists m, e. repeat split; try assumption; lia.
    - assert (Hd' : Zpos d = 53 - dg) by lia.
      assert (Hmz : Zpos (Pos.iter xO mx d) < 2 ^ 64).
      { rewrite iter_xO, Hd'.
        assert (2 ^ dg * 2 ^ (53 - dg) = 2 ^ 53)
          by (rewrite <- Z.pow_add_r by lia; f_equal; lia).
        assert (0 < 2 ^ (53 - dg)) by (apply Z.pow_pos_nonneg; lia).
        assert (Zpos mx * 2 ^ (53 - dg) < 2 ^ dg * 2 ^ (53 - dg))
          by (apply Z.mul_lt_mono_pos_r; lia).
        change (2 ^ 64) with 18446744073709551616.
        change (2 ^ 53) with 9007199254740992 in *. lia. }
      destruct (binary_round_aux_bounds sx (Zpos (Pos.iter xO mx d))
                  (Z.max (dg + 0 - 53) (3 - 1024 - 53)) loc_Exact 64)
        as [Hz | (m & e & Hf & Hm & He)]; try lia.
      + now left.
      + right. exists m, e. repeat split; try assumption; lia. }
  destruct n as [| p | p].
  - now left.
  - apply Hround. change (2 ^ 64) with 18446744073709551616. lia.
  - apply Hround. change (2 ^ 64) with 18446744073709551616. lia.
Qed.

(** A thousand, as a float64. *)
Lemma of_int_1000 :
  float64.of_int 1000 = S754_finite false 8796093022208000 (-43).
Proof. reflexivity. Qed.

(** The quotient by a thousand of a float within the bounds of a converted
    integer is a zero or a finite float of the same sign. *)
Lemma div_1000_finite (s : bool) (mx : positive) (ex : Z) :
  Zpos mx <= 2 ^ 64 -> -52 <= ex <= 129 ->
  finite_with_sign s
    (float64.div (S754_finite s mx ex) (S754_finite false 8796093022208000 (-43))).
Proof.
  intros Hmx Hex. unfold float64.div, SFdiv, SFdiv_core_binary.
  change (Zdigits2 (Zpos 8796093022208000)) with 53.
  assert (Hd1 : 0 <= Zdigits2 (Zpos mx) <= 65).
  { apply Zdigits2_le; [lia |]. change (2 ^ 65) with 36893488147419103232.
    change (2 ^ 64) with 18446744073709551616 in Hmx. lia. }
  set (d1 := Zdigits2 (Zpos mx)) in *.
  unfold fexp, emin.
  set (e' := Z.min (Z.max (d1 + ex - (53 + -43) - 53) (3 - 1024 - 53)) (ex - -43)).
  assert (He' : -1074 <= e' <= 172) by (subst e'; lia).
  assert (Hs : 0 <= ex - -43 - e' <= 106) by (subst e'; lia).
  set (sh := ex - -43 - e') in *.
  set (m' := match sh with
             | 0 => Zpos mx
             | Zpos _ => Z.shiftl (Zpos mx) sh
             | Zneg _ => 0
             end).
  assert (Hm' : 0 <= m' < 2 ^ 171).
  { assert (Heq : m' = Zpos mx * 2 ^ sh).
    { subst m'. destruct sh as [| p | p] eqn:Esh; [cbn; lia | | lia].
      apply Z.shiftl_mul_pow2. lia. }
    rewrite Heq.
    assert (0 < 2 ^ sh) by (apply Z.pow_pos_nonneg; lia).
    assert (2 ^ sh <= 2 ^ 106) by (apply Z.pow_le_mono_r; lia).
    assert (Zpos mx * 2 ^ sh <= 2 ^ 64 * 2 ^ 106) by (apply Z.mul_le_mono_nonneg; lia).
    change (2 ^ 64 * 2 ^ 106) with (2 ^ 170) in *.
    change (2 ^ 171) with (2 * 2 ^ 170).
    assert (0 < 2 ^ 170) by (apply Z.pow_pos_nonneg; lia). lia. }
  destruct (Z.div_eucl m' (Zpos 8796093022208000)) as [q r] eqn:Hdiv.
  assert (Hq : q = m' / 8796093022208000) by (unfold Z.div; now rewrite Hdiv).
  assert (Hq0 : 0 <= q < 2 ^ 171).
  { rewrite Hq. split; [apply Z.div_pos; lia |].
    apply Z.le_lt_trans with m'; [| lia].
    apply Z.div_le_upper_bound; [lia |].
    assert (0 <= m') by lia. nia. }
  rewrite xorb_false_r.
  destruct (binary_round_aux_bounds s q e'
              (new_location (Zpos 8796093022208000) r) 171)
    as [Hz | (m & e & Hf & _ & _)]; try lia.
  - rewrite Hz. reflexivity.
  - rewrite Hf. reflexivity.
Qed.

Lemma wrap64_range (x : Z) :
  -9223372036854775808 <= time.wrap64 x < 9223372036854775808.
Proof.
  unfold time.wrap64.
  pose proof (Z.mod_pos_bound (x + 9223372036854775808) 18446744073709551616).
  lia.
Qed.

Lemma epoch_micros_finite (n : Z) :
  -9223372036854775808 <= n < 9223372036854775808 ->
  finite_with_sign (n <? 0)
    (float64.div (float64.of_int n) (float64.of_int 1000)).
Proof.
  intros Hn. rewrite of_int_1000.
  destruct (of_int_bounds n Hn) as [Hz | (m & e & Hf & Hm & He)].
  - rewrite Hz. cbn. now rewrite xorb_false_r.
  - rewrite Hf. now apply div_1000_finite.
Qed.

End Float.

(** X8. Whatever the time, the value that the microsecond encoder appends is
    a float64 zero or a finite float64, never a NaN and never an infinity,
    and its sign bit is set exactly when the nanosecond count of the time is
    negative, that is for the times before the epoch. *)
Theorem X8_epoch_micros_is_finite
  (S : Type) (enc : PrimitiveArrayEncoder S) (t : time.Time) (s : S) :
  exists x : float64.t,
    @EpochMicrosTimeEncoder S enc t s = @AppendFloat64 S enc x s /\
    finite_with_sign (time.UnixNano t <? 0) x.
Proof.
  eexists. split; [reflexivity |].
  apply epoch_micros_finite, wrap64_range.
Qed.

(** ** The two roundings of the microsecond encoder *)

Section Pow2.

Lemma pow2_pos (e : Z) : (0 < (2 # 1) ^ e)%Q.
Proof. apply Qpower_0_lt. reflexivity. Qed.

Lemma pow2_add (a b : Z) : ((2 # 1) ^ (a + b) == (2 # 1) ^ a * (2 # 1) ^ b)%Q.
Proof. apply Qpower_plus. discriminate. Qed.

Lemma pow2_le (a b : Z) : a <= b -> ((2 # 1) ^ a <= (2 # 1) ^ b)%Q.
Proof. intros H. apply Qpower_le_compat_l; [exact H | discriminate]. Qed.

Lemma pow2_Z (k : Z) : 0 <= k -> (inject_Z (2 ^ k) == (2 # 1) ^ k)%Q.
Proof. intros H. apply (Zpower_Qpower 2 k H). Qed.

Lemma pow2_succ (a : Z) : ((2 # 1) ^ (a + 1) == 2 * (2 # 1) ^ a)%Q.
Proof. rewrite pow2_add. change ((2 # 1) ^ 1)%Q with (2 # 1)%Q. ring. Qed.

Lemma inject_Z_le (a b : Z) : a <= b -> (inject_Z a <= inject_Z b)%Q.
Proof. intros H. now rewrite <- Zle_Qle. Qed.

Lemma inject_Z_nonneg (a : Z) : 0 <= a -> (0 <= inject_Z a)%Q.
Proof. intros H. apply (inject_Z_le 0 a H). Qed.

End Pow2.

Section Grid.

(** The value of a finite float of mantissa [m] and exponent [e]. *)
Lemma to_Q_finite (s : bool) (m : positive) (e : Z) :
  float64.to_Q (S754_finite s m e) =
  Some ((if s then - inject_Z (Zpos m) else inject_Z (Zpos m)) * (2 # 1) ^ e)%Q.
Proof. reflexivity. Qed.

Lemma valid_mantissa (s : bool) (m : positive) (e : Z) :
  valid_binary 53 1024 (S754_finite s m e) = true -> Zpos m < 2 ^ 53.
Proof.
  cbn [valid_binary]. unfold bounded, canonical_mantissa, fexp, emin.
  intros H. apply andb_true_iff in H as [H _]. apply Z.eqb_eq in H.
  destruct (digits2_pos_bound m) as [_ Hhi].
  assert (Hd : Zpos (digits2_pos m) <= 53) by lia.
  apply Z.lt_le_trans with (2 ^ Zpos (digits2_pos m)); [exact Hhi |].
  apply Z.pow_le_mono_r; lia.
Qed.

(** A float64 value either lies on the grid of step [2^E] or stays below
    [2^52] steps; so does its opposite. *)
Lemma on_grid_or_below (y : float64.t) (qy : Q) (E M : Z) :
  valid_binary 53 1024 y = true -> float64.to_Q y = Some qy ->
  2 ^ 52 <= M ->
  ((exists j : Z, (qy == inject_Z j * (2 # 1) ^ E)%Q) \/
   (qy <= inject_Z M * (2 # 1) ^ E)%Q) /\
  ((exists j : Z, (- qy == inject_Z j * (2 # 1) ^ E)%Q) \/
   (- qy <= inject_Z M * (2 # 1) ^ E)%Q).
Proof.
  intros Hv Hq HM.
  pose proof (pow2_pos E) as Hu.
  assert (HMq : (0 <= inject_Z M * (2 # 1) ^ E)%Q).
  { apply Qmult_le_0_compat; [| lra].
    apply inject_Z_nonneg.
    assert (0 < 2 ^ 52) by (apply Z.pow_pos_nonneg; lia). lia. }
  destruct y as [sy | sy | | sy m e]; try discriminate Hq.
  - injection Hq as <-. split; left; exists 0; ring.
  - rewrite to_Q_finite in Hq. injection Hq as <-.
    apply valid_mantissa in Hv.
    assert (Hpos :
      (exists j : Z, (inject_Z (Zpos m) * (2 # 1) ^ e == inject_Z j * (2 # 1) ^ E)%Q) \/
      (inject_Z (Zpos m) * (2 # 1) ^ e <= inject_Z M * (2 # 1) ^ E)%Q).
    { destruct (Z_le_gt_dec E e) as [Hle | Hgt].
      - left. exists (Zpos m * 2 ^ (e - E)).
        rewrite inject_Z_mult, (pow2_Z (e - E)) by lia.
        replace e with ((e - E) + E) at 1 by lia. rewrite pow2_add. ring.
      - right.
        apply Qle_trans with (inject_Z (2 ^ 53) * (2 # 1) ^ (E - 1))%Q.
        + apply Qmult_le_compat_nonneg.
          * split; [apply inject_Z_nonneg | apply inject_Z_le]; lia.
          * split; [pose proof (pow2_pos e); lra | apply pow2_le; lia].
        + apply Qle_trans with (inject_Z (2 ^ 52) * (2 # 1) ^ E)%Q.
          * replace E with ((E - 1) + 1) at 2 by lia. rewrite pow2_succ.
            change (inject_Z (2 ^ 53)) with (2 * inject_Z (2 ^ 52))%Q.
            apply Qle_lteq. right. ring.
          * apply Qmult_le_compat_r; [apply inject_Z_le; exact HM | lra]. }
    assert (Hneg :
      (- (inject_Z (Zpos m) * (2 # 1) ^ e) <= inject_Z M * (2 # 1) ^ E)%Q).
    { assert (0 <= inject_Z (Zpos m) * (2 # 1) ^ e)%Q.
      { apply Qmult_le_0_compat; [apply inject_Z_nonneg; lia |].
        pose proof (pow2_pos e). lra. }
      lra. }
    destruct sy.
    + split.
      * right. lra.
      * destruct Hpos as [[j Hj] | Hle].
        -- left. exists j. rewrite <- Hj. ring.
        -- right. lra.
    + split.
      * exact Hpos.
      * right. lra.
Qed.

(** The nearer of two neighbours on the grid is nearer than every float64. *)
Lemma nearest_on_grid (E M X : Z) (g v : Q) :
  2 ^ 52 <= M ->
  (0 <= g)%Q ->
  (v == (inject_Z M + g) * (2 # 1) ^ E)%Q ->
  (X = M /\ (g <= 1 # 2)%Q) \/ (X = M + 1 /\ (1 # 2 <= g)%Q /\ (g <= 1)%Q) ->
  forall (y : float64.t) (qy : Q),
    valid_binary 53 1024 y = true -> float64.to_Q y = Some qy ->
    (Qabs (inject_Z X * (2 # 1) ^ E - v) <= Qabs (qy - v))%Q /\
    (Qabs (inject_Z X * (2 # 1) ^ E - v) <= Qabs (- qy - v))%Q.
Proof.
  intros HM Hg0 Hv HX y qy Hy Hqy.
  pose proof (pow2_pos E) as Hu.
  set (u := ((2 # 1) ^ E)%Q) in *.
  assert (HG0 : (0 <= g * u)%Q) by (apply Qmult_le_0_compat; lra).
  assert (Hv' : (v == inject_Z M * u + g * u)%Q) by (rewrite Hv; ring).
  assert (Hx : (Qabs (inject_Z X * u - v) <= g * u)%Q /\
               (Qabs (inject_Z X * u - v) <= u - g * u)%Q).
  { destruct HX as [[-> Hg] | (-> & Hg & Hg1)].
    - assert ((g * u <= (1 # 2) * u)%Q) by (apply Qmult_le_compat_r; lra).
      split; apply Qabs_Qle_condition; split; lra.
    - assert (((1 # 2) * u <= g * u)%Q) by (apply Qmult_le_compat_r; lra).
      assert ((g * u <= 1 * u)%Q) by (apply Qmult_le_compat_r; lra).
      rewrite inject_Z_plus.
      split; apply Qabs_Qle_condition; split;
        change (inject_Z 1) with 1%Q; lra. }
  destruct Hx as [Hx1 Hx2].
  assert (Hany : forall q : Q,
    (exists j : Z, (q == inject_Z j * u)%Q) \/ (q <= inject_Z M * u)%Q ->
    (Qabs (inject_Z X * u - v) <= Qabs (q - v))%Q).
  { intros q [[j Hj] | Hle].
    - destruct (Z_le_gt_dec j M) as [Hjm | Hjm].
      + assert ((inject_Z j * u <= inject_Z M * u)%Q)
          by (apply Qmult_le_compat_r; [apply inject_Z_le; lia | lra]).
        apply Qle_trans with (g * u)%Q; [exact Hx1 |].
        apply Qle_trans with (- (q - v))%Q; [lra |].
        rewrite <- Qabs_opp. apply Qle_Qabs.
      + assert ((inject_Z (M + 1) * u <= inject_Z j * u)%Q)
          by (apply Qmult_le_compat_r; [apply inject_Z_le; lia | lra]).
        rewrite inject_Z_plus in H. change (inject_Z 1) with 1%Q in H.
        apply Qle_trans with (u - g * u)%Q; [exact Hx2 |].
        apply Qle_trans with (q - v)%Q; [lra | apply Qle_Qabs].
    - apply Qle_trans with (g * u)%Q; [exact Hx1 |].
      apply Qle_trans with (- (q - v))%Q; [lra |].
      rewrite <- Qabs_opp. apply Qle_Qabs. }
  destruct (on_grid_or_below y qy E M Hy Hqy HM) as [H1 H2].
  split; apply Hany; assumption.
Qed.

End Grid.

Section Shift.

Lemma describes_range (l : location) (g : Q) :
  describes l g -> (0 <= g /\ g < 1)%Q.
Proof. destruct l as [| []]; cbn; lra. Qed.

Lemma loc_of_record_of_loc (m : Z) (l : location) :
  loc_of_shr_record (shr_record_of_loc m l) = l.
Proof. destruct l as [| []]; reflexivity. Qed.

(** One shift to the right keeps the value: the dropped bit moves into the
    location. *)
Lemma shr_1_describes (mrs : shr_record) (g : Q) :
  0 <= shr_m mrs ->
  describes (loc_of_shr_record mrs) g ->
  exists g',
    describes (loc_of_shr_record (shr_1 mrs)) g' /\
    (inject_Z (shr_m mrs) + g == 2 * (inject_Z (shr_m (shr_1 mrs)) + g'))%Q /\
    0 <= shr_m (shr_1 mrs).
Proof.
  destruct mrs as [m r s]. cbn [shr_m]. intros Hm Hd.
  destruct m as [| [p | p |] | p]; [| | | | lia].
  - exists (g * (1 # 2))%Q. destruct r, s; cbn in Hd |- *;
      (split; [| split; [ring | lia]]); lra.
  - exists ((1 + g) * (1 # 2))%Q.
    assert (Hp : (inject_Z (Zpos p~1) == 2 * inject_Z (Zpos p) + 1)%Q).
    { rewrite Pos2Z.inj_xI, inject_Z_plus, inject_Z_mult. reflexivity. }
    destruct r, s; cbn in Hd |- *;
      (split; [| split; [rewrite Hp; ring | lia]]); lra.
  - exists (g * (1 # 2))%Q.
    assert (Hp : (inject_Z (Zpos p~0) == 2 * inject_Z (Zpos p))%Q).
    { rewrite Pos2Z.inj_xO, inject_Z_mult. reflexivity. }
    destruct r, s; cbn in Hd |- *;
      (split; [| split; [rewrite Hp; ring | lia]]); lra.
  - exists ((1 + g) * (1 # 2))%Q.
    destruct r, s; cbn in Hd |- *;
      (split; [| split; [ring | lia]]); lra.
Qed.

Lemma iter_shr_1_describes (p : positive) :
  forall (mrs : shr_record) (g : Q),
    0 <= shr_m mrs ->
    describes (loc_of_shr_record mrs) g ->
    exists g',
      describes (loc_of_shr_record (iter_pos shr_1 p mrs)) g' /\
      (inject_Z (shr_m mrs) + g ==
       (2 # 1) ^ Zpos p * (inject_Z (shr_m (iter_pos shr_1 p mrs)) + g'))%Q /\
      0 <= shr_m (iter_pos shr_1 p mrs).
Proof.
  induction p as [p IH | p IH |]; intros mrs g Hm Hd; cbn [iter_pos].
  - destruct (shr_1_describes mrs g Hm Hd) as (g1 & Hd1 & He1 & Hm1).
    destruct (IH _ g1 Hm1 Hd1) as (g2 & Hd2 & He2 & Hm2).
    destruct (IH _ g2 Hm2 Hd2) as (g3 & Hd3 & He3 & Hm3).
    exists g3. split; [exact Hd3 |]. split; [| exact Hm3].
    rewrite He1, He2, He3.
    replace (Zpos p~1) with (Zpos p + Zpos p + 1) by lia.
    rewrite pow2_succ, pow2_add. ring.
  - destruct (IH _ g Hm Hd) as (g2 & Hd2 & He2 & Hm2).
    destruct (IH _ g2 Hm2 Hd2) as (g3 & Hd3 & He3 & Hm3).
    exists g3. split; [exact Hd3 |]. split; [| exact Hm3].
    rewrite He2, He3.
    replace (Zpos p~0) with (Zpos p + Zpos p) by lia.
    rewrite pow2_add. ring.
  - destruct (shr_1_describes mrs g Hm Hd) as (g1 & Hd1 & He1 & Hm1).
    exists g1. split; [exact Hd1 |]. split; [| exact Hm1].
    rewrite He1. reflexivity.
Qed.

(** Rounding to nearest, ties to even, takes the nearer neighbour. *)
Lemma round_nearest_even_describes (M : Z) (l : location) (g : Q) :
  describes l g ->
  (round_nearest_even M l = M /\ (g <= 1 # 2)%Q) \/
  (round_nearest_even M l = M + 1 /\ (1 # 2 <= g)%Q /\ (g <= 1)%Q).
Proof.
  destruct l as [| []]; cbn; intros H.
  - left. split; [reflexivity | lra].
  - destruct (Z.even M); [left | right]; split; try reflexivity; lra.
  - left. split; [reflexivity | lra].
  - right. split; [reflexivity | lra].
Qed.

Lemma digits2_pos_eq (p : positive) (k : Z) :
  2 ^ (k - 1) <= Zpos p < 2 ^ k -> Zpos (digits2_pos p) = k.
Proof.
  intros [Hlo Hhi]. destruct (digits2_pos_bound p) as [Hlo' Hhi'].
  assert (Hk : 1 <= k).
  { destruct (Z_lt_le_dec k 1) as [Hk |]; [| assumption].
    destruct (Z.eq_dec k 0) as [-> | ?]; [cbn in Hhi; lia |].
    rewrite Z.pow_neg_r in Hhi by lia. lia. }
  assert (H1 : 2 ^ (k - 1) < 2 ^ Zpos (digits2_pos p)) by lia.
  assert (H2 : 2 ^ (Zpos (digits2_pos p) - 1) < 2 ^ k) by lia.
  apply Z.pow_lt_mono_r_iff in H1; [| lia | lia].
  apply Z.pow_lt_mono_r_iff in H2; [| lia | lia].
  lia.
Qed.

End Shift.

Section Round.

Lemma shr_describes (m e k : Z) (l : location) (g : Q) :
  0 <= m -> 0 <= k -> describes l g ->
  exists (mrs : shr_record) (g' : Q),
    shr (shr_record_of_loc m l) e k = (mrs, e + k) /\
    describes (loc_of_shr_record mrs) g' /\
    (inject_Z m + g == (2 # 1) ^ k * (inject_Z (shr_m mrs) + g'))%Q /\
    0 <= shr_m mrs.
Proof.
  intros Hm Hk Hd. destruct k as [| p | p]; [| | lia].
  - exists (shr_record_of_loc m l), g. cbn [shr].
    rewrite Z.add_0_r, loc_of_record_of_loc, shr_record_of_loc_m.
    repeat split; try assumption. change ((2 # 1) ^ 0)%Q with 1%Q. ring.
  - destruct (iter_shr_1_describes p (shr_record_of_loc m l) g)
      as (g' & Hd' & He & Hm').
    + now rewrite shr_record_of_loc_m.
    + now rewrite loc_of_record_of_loc.
    + exists (iter_pos shr_1 p (shr_record_of_loc m l)), g'. cbn [shr].
      rewrite shr_record_of_loc_m in He. repeat split; assumption.
Qed.

(** What is left of a mantissa of [k + 53] bits after a shift by [k]. *)
Lemma shifted_mantissa (m M k : Z) (g g' : Q) :
  0 <= k -> 2 ^ (k + 52) <= m < 2 ^ (k + 53) ->
  (0 <= g /\ g < 1)%Q -> (0 <= g' /\ g' < 1)%Q ->
  (inject_Z m + g == (2 # 1) ^ k * (inject_Z M + g'))%Q ->
  2 ^ 52 <= M < 2 ^ 53.
Proof.
  intros Hk Hm Hg Hg' He.
  rewrite <- (pow2_Z k Hk) in He.
  rewrite !Z.pow_add_r in Hm by lia.
  set (P := 2 ^ k) in *.
  assert (HP : 0 < P) by (apply Z.pow_pos_nonneg; lia).
  assert (HPq : (0 < inject_Z P)%Q) by (change 0%Q with (inject_Z 0); rewrite <- Zlt_Qlt; exact HP).
  assert (H1 : (0 <= inject_Z P * g')%Q) by (apply Qmult_le_0_compat; lra).
  assert (H2 : (inject_Z P * g' < inject_Z P * 1)%Q)
    by (apply Qmult_lt_l; lra).
  assert (Ha : (inject_Z m + g == inject_Z (P * M) + inject_Z P * g')%Q)
    by (rewrite inject_Z_mult, He; ring).
  assert (Hlo : P * M < m + 1).
  { rewrite Zlt_Qlt, inject_Z_plus. change (inject_Z 1) with 1%Q. lra. }
  assert (Hhi : m < P * M + P).
  { rewrite Zlt_Qlt, inject_Z_plus. lra. }
  change (2 ^ 52) with 4503599627370496 in *.
  change (2 ^ 53) with 9007199254740992 in *.
  nia.
Qed.

Lemma shr_fexp_normal (X e : Z) :
  2 ^ 52 <= X < 2 ^ 53 -> -1074 <= e ->
  shr_fexp 53 1024 X e loc_Exact =
  ({| shr_m := X; shr_r := false; shr_s := false |}, e).
Proof.
  intros HX He. unfold shr_fexp.
  destruct X as [| p | p];
    [change (2 ^ 52) with 4503599627370496 in HX; lia | | lia].
  cbn [Zdigits2]. rewrite (digits2_pos_eq p 53) by exact HX.
  unfold fexp, emin.
  replace (Z.max (53 + e - 53) (3 - 1024 - 53) - e) with 0 by lia.
  reflexivity.
Qed.

Lemma shr_fexp_carry (e : Z) :
  -1074 <= e ->
  shr_fexp 53 1024 (2 ^ 53) e loc_Exact =
  ({| shr_m := 2 ^ 52; shr_r := false; shr_s := false |}, e + 1).
Proof.
  intros He. unfold shr_fexp. change (Zdigits2 (2 ^ 53)) with 54.
  unfold fexp, emin.
  replace (Z.max (54 + e - 53) (3 - 1024 - 53) - e) with 1 by lia.
  reflexivity.
Qed.

Lemma valid_normal (s : bool) (m : positive) (e : Z) :
  2 ^ 52 <= Zpos m < 2 ^ 53 -> -1074 <= e <= 971 ->
  valid_binary 53 1024 (S754_finite s m e) = true.
Proof.
  intros Hm He. cbn [valid_binary]. unfold bounded, canonical_mantissa, fexp, emin.
  rewrite (digits2_pos_eq m 53) by exact Hm.
  apply andb_true_iff. split; [apply Z.eqb_eq | apply Z.leb_le]; lia.
Qed.

(** The rounding of a mantissa of at least 53 bits with the location of what
    lies beyond it: the result is a normal float, and no float64 is nearer
    to the value rounded, nor is the opposite of any. *)
Lemma binary_round_aux_nearest
  (sx : bool) (m : positive) (ex d : Z) (l : location) (g : Q) :
  53 <= d -> 2 ^ (d - 1) <= Zpos m < 2 ^ d ->
  -1074 <= ex + (d - 53) -> ex + (d - 53) + 1 <= 971 ->
  describes l g ->
  exists (m3 : positive) (e3 : Z),
    binary_round_aux 53 1024 sx (Zpos m) ex l = S754_finite sx m3 e3 /\
    2 ^ 52 <= Zpos m3 < 2 ^ 53 /\
    ex + (d - 53) <= e3 <= ex + (d - 53) + 1 /\
    forall (y : float64.t) (qy : Q),
      valid_binary 53 1024 y = true -> float64.to_Q y = Some qy ->
      (Qabs (inject_Z (Zpos m3) * (2 # 1) ^ e3 -
             (inject_Z (Zpos m) + g) * (2 # 1) ^ ex) <=
       Qabs (qy - (inject_Z (Zpos m) + g) * (2 # 1) ^ ex))%Q /\
      (Qabs (inject_Z (Zpos m3) * (2 # 1) ^ e3 -
             (inject_Z (Zpos m) + g) * (2 # 1) ^ ex) <=
       Qabs (- qy - (inject_Z (Zpos m) + g) * (2 # 1) ^ ex))%Q.
Proof.
  intros Hd Hm Hlo Hhi Hg.
  unfold binary_round_aux, shr_fexp at 1.
  change (Zdigits2 (Zpos m)) with (Zpos (digits2_pos m)).
  rewrite (digits2_pos_eq m d Hm).
  unfold fexp at 1. unfold emin.
  replace (Z.max (d + ex - 53) (3 - 1024 - 53) - ex) with (d - 53) by lia.
  destruct (shr_describes (Zpos m) ex (d - 53) l g)
    as (mrs & g' & Hs & Hd' & He & Hm0); [lia | lia | exact Hg |].
  rewrite Hs.
  set (E := ex + (d - 53)) in *.
  set (M := shr_m mrs) in *.
  set (v := ((inject_Z (Zpos m) + g) * (2 # 1) ^ ex)%Q).
  assert (HM : 2 ^ 52 <= M < 2 ^ 53).
  { apply (shifted_mantissa (Zpos m) M (d - 53) g g'); try lia.
    - replace (d - 53 + 52) with (d - 1) by lia.
      replace (d - 53 + 53) with d by lia. exact Hm.
    - apply (describes_range l), Hg.
    - apply (describes_range _ _ Hd').
    - exact He. }
  assert (Hv : (v == (inject_Z M + g') * (2 # 1) ^ E)%Q).
  { unfold v, E. rewrite He, pow2_add. ring. }
  pose proof (describes_range _ _ Hd') as Hr.
  assert (Hnear : forall X : Z,
    X = round_nearest_even M (loc_of_shr_record mrs) ->
    forall (y : float64.t) (qy : Q),
      valid_binary 53 1024 y = true -> float64.to_Q y = Some qy ->
      (Qabs (inject_Z X * (2 # 1) ^ E - v) <= Qabs (qy - v))%Q /\
      (Qabs (inject_Z X * (2 # 1) ^ E - v) <= Qabs (- qy - v))%Q).
  { intros X HX. apply (nearest_on_grid E M X g' v); [lia | lra | exact Hv |].
    destruct (round_nearest_even_describes M _ g' Hd') as [[H1 H2] | (H1 & H2 & H3)].
    - left. split; [congruence | exact H2].
    - right. split; [congruence | split; assumption]. }
  assert (HX : M <= round_nearest_even M (loc_of_shr_record mrs) <= M + 1).
  { apply round_nearest_even_bounds. lia. }
  set (X := round_nearest_even M (loc_of_shr_record mrs)) in *.
  specialize (Hnear X eq_refl).
  destruct (Z.eq_dec X (2 ^ 53)) as [Hc | Hc].
  - rewrite Hc, (shr_fexp_carry E Hlo). cbn [shr_m].
    change (2 ^ 52) with (Zpos 4503599627370496).
    replace (E + 1 <=? 1024 - 53) with true by (symmetry; apply Z.leb_le; lia).
    exists 4503599627370496%positive, (E + 1).
    split; [reflexivity |]. split; [cbn; lia |]. split; [lia |].
    intros y qy Hy Hqy. destruct (Hnear y qy Hy Hqy) as [H1 H2].
    assert (Hval : (inject_Z (Zpos 4503599627370496) * (2 # 1) ^ (E + 1) ==
                    inject_Z X * (2 # 1) ^ E)%Q).
    { rewrite Hc, pow2_succ.
      change (inject_Z (2 ^ 53)) with (2 * inject_Z (Zpos 4503599627370496))%Q.
      ring. }
    rewrite Hval. split; assumption.
  - assert (HX' : 2 ^ 52 <= X < 2 ^ 53) by lia.
    rewrite (shr_fexp_normal X E HX' Hlo). cbn [shr_m].
    destruct X as [| px | px];
      [change (2 ^ 52) with 4503599627370496 in HX'; lia | | lia].
    replace (E <=? 1024 - 53) with true by (symmetry; apply Z.leb_le; lia).
    exists px, E.
    split; [reflexivity |]. split; [exact HX' |]. split; [lia |].
    exact Hnear.
Qed.

End Round.

Section Quotient.

Lemma nearest_Qeq (q q' : Q) (x : float64.t) :
  (q == q')%Q -> float64.nearest q x -> float64.nearest q' x.
Proof.
  intros Hq (Hv & qx & Hqx & Hmin). split; [exact Hv |].
  exists qx. split; [exact Hqx |].
  intros y qy Hy Hqy. rewrite <- Hq. exact (Hmin y qy Hy Hqy).
Qed.

Lemma nearest_zero (s : bool) : float64.nearest 0 (S754_zero s).
Proof.
  split; [reflexivity |]. exists 0%Q. split; [reflexivity |].
  intros y qy _ _. apply Qabs_nonneg.
Qed.

(** A normal float that beats every float64 and every opposite of one in
    distance to [v] is, with its sign, nearest to [v] with that sign. *)
Lemma nearest_signed (sx : bool) (m3 : positive) (e3 : Z) (v : Q) :
  2 ^ 52 <= Zpos m3 < 2 ^ 53 -> -1074 <= e3 <= 971 ->
  (forall (y : float64.t) (qy : Q),
     valid_binary 53 1024 y = true -> float64.to_Q y = Some qy ->
     (Qabs (inject_Z (Zpos m3) * (2 # 1) ^ e3 - v) <= Qabs (qy - v))%Q /\
     (Qabs (inject_Z (Zpos m3) * (2 # 1) ^ e3 - v) <= Qabs (- qy - v))%Q) ->
  float64.nearest (if sx then - v else v)%Q (S754_finite sx m3 e3).
Proof.
  intros Hm He H. split; [now apply valid_normal |].
  eexists. split; [reflexivity |].
  intros y qy Hy Hqy. destruct (H y qy Hy Hqy) as [H1 H2].
  destruct sx.
  - setoid_replace (- inject_Z (Zpos m3) * (2 # 1) ^ e3 - - v)%Q
      with (- (inject_Z (Zpos m3) * (2 # 1) ^ e3 - v))%Q by ring.
    rewrite Qabs_opp.
    setoid_replace (qy - - v)%Q with (- (- qy - v))%Q by ring.
    rewrite Qabs_opp. exact H2.
  - exact H1.
Qed.

(** The conversion of a positive integer of at most 64 bits. *)
Lemma binary_round_nearest (sx : bool) (mx : positive) :
  Zpos mx <= 2 ^ 63 ->
  exists (m : positive) (e : Z),
    binary_round 53 1024 sx mx 0 = S754_finite sx m e /\
    2 ^ 52 <= Zpos m < 2 ^ 53 /\ -52 <= e <= 12 /\
    float64.nearest
      (if sx then - inject_Z (Zpos mx) else inject_Z (Zpos mx))%Q
      (S754_finite sx m e).
Proof.
  intros Hmx. unfold binary_round, shl_align, fexp, emin.
  destruct (digits2_pos_bound mx) as [Hlo Hhi].
  set (dg := Zpos (digits2_pos mx)) in *.
  assert (Hdg : 1 <= dg <= 64).
  { split; [subst dg; lia |].
    assert (Hlt : 2 ^ (dg - 1) < 2 ^ 64).
    { change (2 ^ 64) with 18446744073709551616.
      change (2 ^ 63) with 9223372036854775808 in Hmx. lia. }
    apply Z.pow_lt_mono_r_iff in Hlt; lia. }
  assert (Hexact : describes loc_Exact 0) by reflexivity.
  destruct (Z.max (dg + 0 - 53) (3 - 1024 - 53) - 0) as [| d | d] eqn:Hd.
  - destruct (binary_round_aux_nearest sx mx 0 dg loc_Exact 0)
      as (m & e & Hf & Hm & He & Hn); try lia; [exact Hexact |].
    exists m, e. split; [exact Hf |]. split; [exact Hm |]. split; [lia |].
    apply (nearest_Qeq (if sx then - ((inject_Z (Zpos mx) + 0) * (2 # 1) ^ 0)
                        else (inject_Z (Zpos mx) + 0) * (2 # 1) ^ 0)%Q).
    + change ((2 # 1) ^ 0)%Q with 1%Q. destruct sx; ring.
    + apply nearest_signed; [exact Hm | lia | exact Hn].
  - destruct (binary_round_aux_nearest sx mx 0 dg loc_Exact 0)
      as (m & e & Hf & Hm & He & Hn); try lia; [exact Hexact |].
    exists m, e. split; [exact Hf |]. split; [exact Hm |]. split; [lia |].
    apply (nearest_Qeq (if sx then - ((inject_Z (Zpos mx) + 0) * (2 # 1) ^ 0)
                        else (inject_Z (Zpos mx) + 0) * (2 # 1) ^ 0)%Q).
    + change ((2 # 1) ^ 0)%Q with 1%Q. destruct sx; ring.
    + apply nearest_signed; [exact Hm | lia | exact Hn].
  - assert (Hd' : Zpos d = 53 - dg) by lia.
    replace (Z.max (dg + 0 - 53) (3 - 1024 - 53)) with (dg - 53) by lia.
    assert (Hmz : Zpos (Pos.iter xO mx d) = Zpos mx * 2 ^ (53 - dg))
      by (rewrite iter_xO, Hd'; reflexivity).
    assert (Hp : 2 ^ (dg - 1) * 2 ^ (53 - dg) = 2 ^ 52)
      by (rewrite <- Z.pow_add_r by lia; f_equal; lia).
    assert (Hp' : 2 ^ dg * 2 ^ (53 - dg) = 2 ^ 53)
      by (rewrite <- Z.pow_add_r by lia; f_equal; lia).
    assert (H0 : 0 < 2 ^ (53 - dg)) by (apply Z.pow_pos_nonneg; lia).
    destruct (binary_round_aux_nearest sx (Pos.iter xO mx d) (dg - 53) 53 loc_Exact 0)
      as (m & e & Hf & Hm & He & Hn); try lia; [| exact Hexact |].
    { rewrite Hmz. change (2 ^ (53 - 1)) with (2 ^ 52). rewrite <- Hp, <- Hp'.
      split; [apply Z.mul_le_mono_nonneg_r | apply Z.mul_lt_mono_pos_r]; lia. }
    exists m, e. split; [exact Hf |]. split; [exact Hm |]. split; [lia |].
    apply (nearest_Qeq
             (if sx
              then - ((inject_Z (Zpos (Pos.iter xO mx d)) + 0) * (2 # 1) ^ (dg - 53))
              else (inject_Z (Zpos (Pos.iter xO mx d)) + 0) * (2 # 1) ^ (dg - 53))%Q).
    + assert (Hval : (inject_Z (Zpos (Pos.iter xO mx d)) * (2 # 1) ^ (dg - 53) ==
                      inject_Z (Zpos mx))%Q).
      { rewrite Hmz, inject_Z_mult, (pow2_Z (53 - dg)) by lia.
        rewrite <- Qmult_assoc, <- pow2_add.
        replace (53 - dg + (dg - 53)) with 0 by lia.
        change ((2 # 1) ^ 0)%Q with 1%Q. ring. }
      destruct sx; rewrite <- Hval; ring.
    + apply nearest_signed; [exact Hm | lia | exact Hn].
Qed.

(** The conversion [float64(n)] of a non-zero [int64] is the normal float64
    nearest to [n]. *)
Lemma of_int_nearest (n : Z) :
  n <> 0 -> -9223372036854775808 <= n < 9223372036854775808 ->
  exists (m : positive) (e : Z),
    float64.of_int n = S754_finite (n <? 0) m e /\
    2 ^ 52 <= Zpos m < 2 ^ 53 /\ -52 <= e <= 12 /\
    float64.nearest (inject_Z n) (S754_finite (n <? 0) m e).
Proof.
  intros Hn0 Hn. unfold float64.of_int, binary_normalize.
  destruct n as [| p | p]; [congruence | |].
  - apply (binary_round_nearest false p).
    change (2 ^ 63) with 9223372036854775808. lia.
  - apply (binary_round_nearest true p).
    change (2 ^ 63) with 9223372036854775808. lia.
Qed.

(** The location that the division computes from a remainder. *)
Lemma new_location_describes (n : positive) (r : Z) :
  0 <= r < Zpos n -> describes (new_location (Zpos n) r) (r # n).
Proof.
  intros Hr. unfold new_location, new_location_even, new_location_odd.
  destruct (Z.even (Zpos n)) eqn:Hev.
  - destruct (Z.eqb_spec r 0) as [-> | Hr0]; [reflexivity |].
    destruct (Z.compare_spec (2 * r) (Zpos n));
      unfold describes, Qlt, Qeq; cbn [Qnum Qden]; lia.
  - rewrite <- Z.negb_odd in Hev. apply negb_false_iff, Z.odd_spec in Hev.
    destruct Hev as [k Hk].
    destruct (Z.eqb_spec r 0) as [-> | Hr0]; [reflexivity |].
    destruct (Z.compare_spec (2 * r + 1) (Zpos n));
      unfold describes, Qlt, Qeq; cbn [Qnum Qden]; lia.
Qed.

(** The quotient by a thousand of a normal float64 within the range of the
    converted integers is the float64 nearest to the thousandth of its
    value. *)
Lemma div_1000_nearest (s : bool) (mx : positive) (ex : Z) :
  2 ^ 52 <= Zpos mx < 2 ^ 53 -> -52 <= ex <= 12 ->
  float64.nearest
    ((if s then - inject_Z (Zpos mx) else inject_Z (Zpos mx)) * (2 # 1) ^ ex / 1000)%Q
    (float64.div (S754_finite s mx ex) (S754_finite false 8796093022208000 (-43))).
Proof.
  intros Hmx Hex. unfold float64.div, SFdiv, SFdiv_core_binary.
  change (Zdigits2 (Zpos 8796093022208000)) with 53.
  cbn [Zdigits2]. rewrite (digits2_pos_eq mx 53 Hmx).
  unfold fexp, emin.
  replace (Z.min (Z.max (53 + ex - (53 + -43) - 53) (3 - 1024 - 53)) (ex - -43))
    with (ex - 10) by lia.
  replace (ex - -43 - (ex - 10)) with 53 by lia.
  cbv iota. rewrite Z.shiftl_mul_pow2 by lia.
  rewrite xorb_false_r.
  pose proof (Z_div_mod (Zpos mx * 2 ^ 53) (Zpos 8796093022208000) eq_refl) as Hdm.
  destruct (Z.div_eucl (Zpos mx * 2 ^ 53) (Zpos 8796093022208000)) as [q r].
  destruct Hdm as [Heq Hr].
  change (2 ^ 52) with 4503599627370496 in Hmx.
  change (2 ^ 53) with 9007199254740992 in Hmx, Heq.
  assert (Hq : 4503599627370496 <= q < 18014398509481984) by lia.
  destruct q as [| pq | pq]; [lia | | lia].
  pose proof (new_location_describes 8796093022208000 r Hr) as Hloc.
  assert (Hval : ((inject_Z (Zpos pq) + (r # 8796093022208000)) * (2 # 1) ^ (ex - 10) ==
                  inject_Z (Zpos mx) * (2 # 1) ^ ex / 1000)%Q).
  { assert (HZ : (inject_Z (Zpos mx) * inject_Z 9007199254740992 ==
                  inject_Z 8796093022208000 * inject_Z (Zpos pq) + inject_Z r)%Q).
    { rewrite <- !inject_Z_mult, <- inject_Z_plus, Heq. reflexivity. }
    rewrite Qmake_Qdiv.
    replace ex with (ex - 10 + 10) at 2 by lia. rewrite pow2_add.
    change ((2 # 1) ^ 10)%Q with (1024 # 1)%Q.
    change (inject_Z 9007199254740992) with (9007199254740992 # 1)%Q in HZ.
    change (inject_Z 8796093022208000) with (8796093022208000 # 1)%Q in HZ.
    change (inject_Z (Zpos 8796093022208000)) with (8796093022208000 # 1)%Q.
    setoid_replace (inject_Z r)
      with (inject_Z (Zpos mx) * (9007199254740992 # 1) -
            (8796093022208000 # 1) * inject_Z (Zpos pq))%Q by lra.
    field. }
  destruct (Z_lt_le_dec (Zpos pq) 9007199254740992) as [Hlt | Hge].
  - destruct (binary_round_aux_nearest s pq (ex - 10) 53
                (new_location (Zpos 8796093022208000) r) (r # 8796093022208000))
      as (m & e & Hf & Hm & He & Hn); try lia; [exact Hloc |].
    rewrite Hf.
    apply (nearest_Qeq
             (if s
              then - ((inject_Z (Zpos pq) + (r # 8796093022208000)) * (2 # 1) ^ (ex - 10))
              else (inject_Z (Zpos pq) + (r # 8796093022208000)) * (2 # 1) ^ (ex - 10))%Q).
    + destruct s; rewrite Hval; unfold Qdiv; ring.
    + apply nearest_signed; [exact Hm | lia | exact Hn].
  - destruct (binary_round_aux_nearest s pq (ex - 10) 54
                (new_location (Zpos 8796093022208000) r) (r # 8796093022208000))
      as (m & e & Hf & Hm & He & Hn); try lia; [exact Hloc |].
    rewrite Hf.
    apply (nearest_Qeq
             (if s
              then - ((inject_Z (Zpos pq) + (r # 8796093022208000)) * (2 # 1) ^ (ex - 10))
              else (inject_Z (Zpos pq) + (r # 8796093022208000)) * (2 # 1) ^ (ex - 10))%Q).
    + destruct s; rewrite Hval; unfold Qdiv; ring.
    + apply nearest_signed; [exact Hm | lia | exact Hn].
Qed.

(** Both roundings of the microsecond encoder, for every [int64]: the
    conversion is the float64 nearest to the integer, and the quotient is
    the float64 nearest to the thousandth of the converted value. *)
Lemma epoch_micros_nearest (n : Z) :
  -9223372036854775808 <= n < 9223372036854775808 ->
  exists qy : Q,
    float64.to_Q (float64.of_int n) = Some qy /\
    float64.nearest (inject_Z n) (float64.of_int n) /\
    float64.nearest (qy / 1000)
      (float64.div (float64.of_int n) (float64.of_int 1000)).
Proof.
  intros Hn. rewrite of_int_1000.
  destruct (Z.eq_dec n 0) as [-> | Hn0].
  - exists 0%Q. split; [reflexivity |]. split; [apply nearest_zero |].
    apply (nearest_Qeq 0); [reflexivity | apply nearest_zero].
  - destruct (of_int_nearest n Hn0 Hn) as (m & e & Hf & Hm & He & Hnear).
    rewrite Hf. eexists. split; [reflexivity |]. split; [exact Hnear |].
    now apply div_1000_nearest.
Qed.

End Quotient.

(** C7, as the code has it.  Whatever the sink and the time, the
    microsecond encoder returns, having appended exactly one value [x] to
    the sink.  The encoder reads the time through [t.UnixNano()]: the count
    of nanoseconds since the epoch when that count fits in an [int64], and
    the count wrapped around modulo 2^64 otherwise.  The value appended is
    the outcome of two roundings, each to nearest: [y] is a float64 nearest
    to the integer read, and [x] is a float64 nearest to the thousandth of
    [y]; both are finite. *)
Theorem C7_epoch_micros_rounds_twice
  (S : Type) (enc : PrimitiveArrayEncoder S) (t : time.Time) (s : S) :
  exists (y x : float64.t) (qy : Q),
    @EpochMicrosTimeEncoder S enc t s = @AppendFloat64 S enc x s /\
    y = float64.of_int (time.UnixNano t) /\
    x = float64.div y (float64.of_int 1000) /\
    time.UnixNano t =
      time.wrap64 (time.unixSec t * 1000000000 + time.nsec t) /\
    (-9223372036854775808 <= time.unixSec t * 1000000000 + time.nsec t
       < 9223372036854775808 ->
     time.UnixNano t = time.unixSec t * 1000000000 + time.nsec t) /\
    float64.nearest (inject_Z (time.UnixNano t)) y /\
    float64.to_Q y = Some qy /\
    float64.nearest (qy / 1000) x.
Proof.
  destruct (epoch_micros_nearest (time.UnixNano t) (wrap64_range _))
    as (qy & Hqy & Hy & Hx).
  exists (float64.of_int (time.UnixNano t)),
         (float64.div (float64.of_int (time.UnixNano t)) (float64.of_int 1000)),
         qy.
  split; [reflexivity |]. split; [reflexivity |]. split; [reflexivity |].
  split; [reflexivity |]. split; [apply UnixNano_in_range |].
  split; [exact Hy |]. split; [exact Hqy | exact Hx].
Qed.

Lemma C7_witness :
  time.UnixNano may_day = 1619863200123456000 /\
  exists x : float64.t,
    @EpochMicrosTimeEncoder (list Value) (memEncoder false false) may_day [] =
      [Float64Value x] /\
    float64.nearest (inject_Z 1619863200123456) x.
Proof.
  destruct (C7_epoch_micros_rounds_twice (list Value) (memEncoder false false)
              may_day [])
    as (y & x & qy & Henc & Hy & _ & _ & Hfit & _ & Hqy & Hnx).
  split.
  - apply Hfit. cbn. lia.
  - exists x. split; [exact Henc |].
    rewrite Hy in Hqy. vm_compute in Hqy. injection Hqy as <-.
    refine (nearest_Qeq _ _ x _ Hnx). vm_compute. reflexivity.
Defined.

(** Past the year 2262 the count read has wrapped around: for the first
    instant of the year 2300 the encoder appends a negative number of
    microseconds. *)
Example epoch_micros_wraps :
  time.unixSec year_2300 * 1000000000 + time.nsec year_2300 =
    10413792000000000000 /\
  time.UnixNano year_2300 = 10413792000000000000 - 2 ^ 64 /\
  @EpochMicrosTimeEncoder (list Value) (memEncoder false false) year_2300 [] =
    [Float64Value (S754_finite true 8032952073709552 0)].
Proof. repeat split. Qed.

(** ** The fixed format, place by place *)

Section Pattern.

Local Open Scope list_scope.









End Pattern.






(** C9, as the code has it.  On a sink that has the method, the fast path
    calls [AppendTimeLayout] with the time and the layout of the package,
    and the fallback path, taken when the same sink is seen without the
    method, appends the time formatted with that same layout.  The two
    leave the sink in the same state exactly when the sink's
    [AppendTimeLayout] does, for this time and layout, what its
    [AppendString] does for the formatted string. *)
Theorem C9_paths_agree_iff_sink_formats
  (S : Type) (enc : PrimitiveArrayEncoder S)
  (e : appendTimeEncoder S) (t : time.Time) (s : S) :
  @as_appendTimeEncoder S enc = Some e ->
  @RFC3339TimeEncoder S enc t s = AppendTimeLayout e t rfc3339millis s /\
  @RFC3339TimeEncoder S (without_AppendTimeLayout enc) t s =
    @AppendString S enc (time.Format t rfc3339millis) s /\
  (@RFC3339TimeEncoder S enc t s =
     @RFC3339TimeEncoder S (without_AppendTimeLayout enc) t s <->
   AppendTimeLayout e t rfc3339millis s =
     @AppendString S enc (time.Format t rfc3339millis) s).
Proof.
  intros He.
  assert (Hfast : @RFC3339TimeEncoder S enc t s =
                  AppendTimeLayout e t rfc3339millis s).
  { unfold RFC3339TimeEncoder. now rewrite He. }
  assert (Hslow : @RFC3339TimeEncoder S (without_AppendTimeLayout enc) t s =
                  @AppendString S enc (time.Format t rfc3339millis) s)
    by reflexivity.
  split; [exact Hfast |]. split; [exact Hslow |].
  now rewrite Hfast, Hslow.
Qed.

Lemma C9_witness :
  @RFC3339TimeEncoder string (json.encoder (fun _ => "")) may_day "" =
    AppendTimeLayout {| AppendTimeLayout := json.appendTimeLayout |}
      may_day rfc3339millis "" /\
  @RFC3339TimeEncoder string
    (without_AppendTimeLayout (json.encoder (fun _ => ""))) may_day "" =
    @AppendString string (json.encoder (fun _ => ""))
      (time.Format may_day rfc3339millis) "" /\
  (@RFC3339TimeEncoder string (json.encoder (fun _ => "")) may_day "" =
     @RFC3339TimeEncoder string
       (without_AppendTimeLayout (json.encoder (fun _ => ""))) may_day "" <->
   AppendTimeLayout {| AppendTimeLayout := json.appendTimeLayout |}
     may_day rfc3339millis "" =
     @AppendString string (json.encoder (fun _ => ""))
       (time.Format may_day rfc3339millis) "").
Proof.
  exact (C9_paths_agree_iff_sink_formats
           string (json.encoder (fun _ => "")) _ may_day "" eq_refl).
Defined.

(** C9 fails on a sink whose [AppendTimeLayout] writes times to the second:
    the fast path leaves [2021-05-01T10:00:00Z] in the sink and the fallback
    path [2021-05-01T10:00:00.123Z]. *)
Lemma C9_counterexample :
  @RFC3339TimeEncoder (list Value) secondsEncoder may_day [] =
    [StringValue "2021-05-01T10:00:00Z"] /\
  @RFC3339TimeEncoder (list Value)
    (without_AppendTimeLayout secondsEncoder) may_day [] =
    [StringValue "2021-05-01T10:00:00.123Z"] /\
  @RFC3339TimeEncoder (list Value) secondsEncoder may_day [] <>
    @RFC3339TimeEncoder (list Value)
      (without_AppendTimeLayout secondsEncoder) may_day [].
Proof.
  assert (H1 : @RFC3339TimeEncoder (list Value) secondsEncoder may_day [] =
               [StringValue "2021-05-01T10:00:00Z"])
    by (vm_compute; reflexivity).
  assert (H2 : @RFC3339TimeEncoder (list Value)
                 (without_AppendTimeLayout secondsEncoder) may_day [] =
               [StringValue "2021-05-01T10:00:00.123Z"])
    by (vm_compute; reflexivity).
  split; [exact H1 |]. split; [exact H2 |].
  rewrite H1, H2. discriminate.
Qed.
